(** * Scenario player utilities: a shallow embedding of
      [tools/scenario-player/scenario_player/utils.py] and [main.py]

    The first half holds the model, one module per class or function of the
    Python modules:
    - [FrozenDict]: the immutable dict subclass and its cached hash;
    - [LogBuffer]: the bounded line buffer behind the live log view;
    - [Waiter]: [wait_for_txs], the transaction confirmation waiter, on a
      clock that counts whole milliseconds and advances by the time slept;
    - [WaiterTiming]: the same function on the clock Python reads, with
      binary64 arithmetic and a clock that belongs to the surroundings;
    - [Token]: [get_or_deploy_token];
    - [Gas]: [get_gas_price_strategy];
    - [TimeOutHTTPAdapter]: the HTTP adapter with a default timeout;
    - [RawInput]: the [raw_input] context manager;
    - [Main]: [send_notification_mail] and the command [main];
    - [Ui]: [_ui], the loop that draws the terminal.
    The second half holds what is proved of each, in modules of the same
    names followed by [Facts].

    Python exceptions are values of [exn]. Code that reads the clock, talks
    to the chain client or mutates an object is written in a state and
    exception monad over an explicit world; the chain client, the web3
    strategies and the contract manager are parameters. *)

From Stdlib Require Import ZArith NArith List String Ascii Bool Lia Permutation DecimalString.
From Stdlib Require Import Floats.PrimFloat Floats.FloatOps Floats.SpecFloat.
From stdpp Require Import base option list gmap strings.

(* The literals [.1] and [.5] of the Python source are written as they are
   there; they denote the nearest binary64 numbers, there as here. *)
#[local] Set Warnings "-inexact-float".

Local Open Scope string_scope.
Local Open Scope list_scope.
Local Open Scope Z_scope.

(** ** Python exceptions raised or propagated by the module *)

Inductive exn : Type :=
| TypeError (msg : string)
| IndexError
| ValueError (msg : string)
| ScenarioTxError (msg : string)
| RpcError (err : string)          (* whatever the JSON-RPC client raised *)
| AddressWithoutCode (what : string)
| KeyError
| OverflowError (msg : string)
| DanglingReference.               (* model only: a list object that was never allocated *)

(* ===================================================================== *)
(** * FrozenDict *)
(* ===================================================================== *)

Module FrozenDict.

Section Dict.

(** Keys are compared with [==]; [hash] is Python's [hash((k, v))], which
    raises [TypeError] when the key or the value is unhashable ([None] here). *)
Context {K V : Type} `{EqDecision K}.
Variable hash : K * V -> option Z.

(** A dict keeps its items in insertion order, one item per key. *)
Fixpoint dict_set (k : K) (v : V) (items : list (K * V)) : list (K * V) :=
  match items with
  | [] => [(k, v)]
  | (k', v') :: rest =>
      if decide (k = k') then (k, v) :: rest else (k', v') :: dict_set k v rest
  end.

(** [dict(pairs)]: a later pair for a key replaces the value and keeps the
    key's place. *)
Definition dict_of (pairs : list (K * V)) : list (K * V) :=
  fold_left (fun items kv => dict_set kv.1 kv.2 items) pairs [].

(** An instance: the inherited dict storage and the [_hash] attribute. *)
Record t : Type := mk {
  items : list (K * V);
  _hash : option Z
}.

(** [FrozenDict(pairs)]: the dict constructor fills the storage directly (it
    does not go through [__setitem__]), then [self._hash = None]. *)
Definition __init__ (pairs : list (K * V)) : t :=
  mk (dict_of pairs) None.

(** Lines 49-51: [h = 0; for k, v in self.items(): h ^= hash((k, v))] *)
Fixpoint xor_items (its : list (K * V)) (h : Z) : Z + exn :=
  match its with
  | [] => inl h
  | kv :: rest =>
      match hash kv with
      | Some x => xor_items rest (Z.lxor h x)
      | None => inr (TypeError "unhashable type")
      end
  end.

(** [__hash__]: computed on first use and cached in [_hash]. *)
Definition __hash__ (self : t) : (Z + exn) * t :=
  match _hash self with
  | Some h => (inl h, self)
  | None =>
      match xor_items (items self) 0 with
      | inl h => (inl h, mk (items self) (Some h))
      | inr e => (inr e, self)
      end
  end.

Definition __setitem__ (self : t) (k : K) (v : V) : (unit + exn) * t :=
  (inr (TypeError "FrozenDict is immutable"), self).

Definition __delitem__ (self : t) (k : K) : (unit + exn) * t :=
  (inr (TypeError "FrozenDict is immutable"), self).

Definition update (self : t) (pairs : list (K * V)) : (unit + exn) * t :=
  (inr (TypeError "FrozenDict is immutable"), self).

Definition clear (self : t) : (unit + exn) * t :=
  (inr (TypeError "FrozenDict is immutable"), self).

(** The class overrides no other method: [pop], [popitem] and [setdefault]
    are those of [dict], which work on the storage and know nothing of
    [_hash]. *)

(** [k in d] and [d[k]] on the storage *)
Definition dict_get (k : K) (its : list (K * V)) : option V :=
  snd <$> List.find (fun kv => bool_decide (kv.1 = k)) its.

(** The storage without the key [k]. *)
Definition dict_del (k : K) (its : list (K * V)) : list (K * V) :=
  List.filter (fun kv => negb (bool_decide (kv.1 = k))) its.

(** [dict.pop(k)] and [dict.pop(k, default)] *)
Definition pop (self : t) (k : K) (default : option V) : (V + exn) * t :=
  match dict_get k (items self) with
  | Some v => (inl v, mk (dict_del k (items self)) (_hash self))
  | None =>
      match default with
      | Some d => (inl d, self)
      | None => (inr KeyError, self)
      end
  end.

(** [dict.popitem()]: the item inserted last. *)
Definition popitem (self : t) : (K * V + exn) * t :=
  match rev (items self) with
  | [] => (inr KeyError, self)
  | kv :: earlier => (inl kv, mk (rev earlier) (_hash self))
  end.

(** [dict.setdefault(k, default)] *)
Definition setdefault (self : t) (k : K) (default : V) : (V + exn) * t :=
  match dict_get k (items self) with
  | Some v => (inl v, self)
  | None => (inl default, mk (items self ++ [(k, default)]) (_hash self))
  end.

(** A call a client of the class may make on an instance: the methods the
    class defines, and the mutating methods it inherits from [dict]. *)
Inductive call : Type :=
| SetItem (k : K) (v : V)
| DelItem (k : K)
| Update (pairs : list (K * V))
| Clear
| Hash
| Pop (k : K) (default : option V)
| PopItem
| SetDefault (k : K) (default : V).

(** The calls that reach a method of [FrozenDict] itself. *)
Definition overridden (c : call) : bool :=
  match c with
  | SetItem _ _ | DelItem _ | Update _ | Clear | Hash => true
  | Pop _ _ | PopItem | SetDefault _ _ => false
  end.

(** What a call returned. *)
Inductive returned : Type :=
| Nothing
| Hashed (h : Z)
| Value (v : V)
| Item (kv : K * V).

Definition no_value (r : (unit + exn) * t) : (returned + exn) * t :=
  match r with
  | (inl _, self') => (inl Nothing, self')
  | (inr e, self') => (inr e, self')
  end.

Definition a_value (r : (V + exn) * t) : (returned + exn) * t :=
  match r with
  | (inl v, self') => (inl (Value v), self')
  | (inr e, self') => (inr e, self')
  end.

Definition perform (self : t) (c : call) : (returned + exn) * t :=
  match c with
  | SetItem k v => no_value (__setitem__ self k v)
  | DelItem k => no_value (__delitem__ self k)
  | Update pairs => no_value (update self pairs)
  | Clear => no_value (clear self)
  | Hash => match __hash__ self with
            | (inl h, self') => (inl (Hashed h), self')
            | (inr e, self') => (inr e, self')
            end
  | Pop k default => a_value (pop self k default)
  | PopItem => match popitem self with
               | (inl kv, self') => (inl (Item kv), self')
               | (inr e, self') => (inr e, self')
               end
  | SetDefault k default => a_value (setdefault self k default)
  end.

(** A client that catches every exception and goes on. *)
Definition perform_all (self : t) (cs : list call) : t :=
  fold_left (fun s c => (perform s c).2) cs self.

(** The cached value, when there is one, is the hash of the items. *)
Definition cache_ok (self : t) : Prop :=
  forall h, _hash self = Some h -> xor_items (items self) 0 = inl h.

End Dict.

Arguments t K V : clear implicits.

(** *** The instances of the examples *)

(** Three items over small integers, hashed as a pair would be, and the
    same items in another order. *)
Definition pair_hash (kv : nat * nat) : option Z :=
  Some (Z.of_nat (kv.1 * 31 + kv.2)).
Definition abc : list (nat * nat) := [(1, 10); (2, 25); (3, 30)]%nat.
Definition cab : list (nat * nat) := [(3, 30); (1, 10); (2, 25)]%nat.

(** Two of these items. *)
Definition ab : list (nat * nat) := [(1, 10); (2, 25)]%nat.

(** A hash under which the value 0 stands for an unhashable object. *)
Definition hash_but_zero (kv : nat * nat) : option Z :=
  if Nat.eqb kv.2 0 then None else pair_hash kv.

End FrozenDict.

(* ===================================================================== *)
(** * LogBuffer *)
(* ===================================================================== *)

Module LogBuffer.

(** Characters at which [str.splitlines] ends a line, among the code points
    below 256: LF, VT, FF, CR, FS, GS, RS and NEL. *)
Definition is_line_boundary (c : ascii) : bool :=
  match nat_of_ascii c with
  | 10%nat | 11%nat | 12%nat | 13%nat | 28%nat | 29%nat | 30%nat | 133%nat => true
  | _ => false
  end.

Definition is_cr (c : ascii) : bool := Nat.eqb (nat_of_ascii c) 13.
Definition is_lf (c : ascii) : bool := Nat.eqb (nat_of_ascii c) 10.

(** [str.splitlines()] with the line being read in [line]: the boundaries
    are dropped, CR LF counts once, and no empty last line is produced. *)
Fixpoint splitlines_from (line : string) (s : string) : list string :=
  match s with
  | EmptyString => match line with EmptyString => [] | _ => [line] end
  | String c rest =>
      if is_line_boundary c then
        line :: (if is_cr c
                 then match rest with
                      | String c2 rest2 =>
                          if is_lf c2 then splitlines_from "" rest2
                          else splitlines_from "" rest
                      | EmptyString => []
                      end
                 else splitlines_from "" rest)
      else splitlines_from (String.append line (String c "")) rest
  end.

Definition splitlines (s : string) : list string := splitlines_from "" s.

(** A [collections.deque] with [maxlen]: index 0 is the left end. *)
Record deque : Type := mkDeque {
  maxlen : nat;
  elems : list string
}.

(** [deque(iterable, maxlen)]: appended on the right one by one, so only the
    last [maxlen] elements stay. *)
Definition deque_of (iterable : list string) (n : nat) : deque :=
  mkDeque n (drop (length iterable - n) iterable).

(** [d.appendleft(x)]: when full, the rightmost element is discarded. *)
Definition appendleft (x : string) (d : deque) : deque :=
  mkDeque (maxlen d) (take (maxlen d) (x :: elems d)).

(** [d.extendleft(xs)]: [appendleft] for each element in turn. *)
Definition extendleft (xs : list string) (d : deque) : deque :=
  fold_left (fun d x => appendleft x d) xs d.

(** The deque respects its bound. *)
Definition bounded (d : deque) : Prop := (length (elems d) <= maxlen d)%nat.

Record t : Type := mk { buffer : deque }.

(** [LogBuffer(capacity=1000)] *)
Definition __init__ (capacity : nat) : t := mk (deque_of [""] capacity).
Definition default_capacity : nat := 1000.

(** [write(content)]. [self.buffer[0] += lines[0]] reads [buffer[0]], then
    [lines[0]], then stores the concatenation; either read raises
    [IndexError] when there is nothing at index 0. *)
Definition write (self : t) (content : string) : (unit + exn) * t :=
  let lines := splitlines content in
  match elems (buffer self) with
  | [] => (inr IndexError, self)
  | newest :: older =>
      match lines with
      | [] => (inr IndexError, self)
      | first :: others =>
          let b := mkDeque (maxlen (buffer self)) (String.append newest first :: older) in
          if decide (lines = [""])
          then (inl tt, mk (appendleft "" b))
          else (inl tt, mk (extendleft others b))
      end
  end.

(** A sequence of calls to [write], whatever each of them raises. *)
Definition writes (self : t) (contents : list string) : t :=
  fold_left (fun s content => (write s content).2) contents self.

(** [getlines(start, stop)]: [islice] over the deque, oldest line first. *)
Definition getlines (self : t) (start : nat) (stop : option nat) : list string :=
  match stop with
  | Some (S n) => rev (drop start (take (S n) (elems (buffer self))))
  | _ => rev (take start (elems (buffer self)))
  end.

(** *** Vocabulary of the further facts *)

(** No character of [s] ends a line. *)
Fixpoint boundary_free (s : string) : bool :=
  match s with
  | EmptyString => true
  | String c rest => negb (is_line_boundary c) && boundary_free rest
  end.

(** The line feed on its own, as a stream handler writes its terminator. *)
Definition newline : string := String (ascii_of_nat 10) "".

(** A writer that hands over each message with one call to [write] and ends
    it with a second call that writes the bare newline. *)
Definition write_lines (self : t) (msgs : list string) : t :=
  fold_left (fun s msg => (write (write s msg).2 newline).2) msgs self.

End LogBuffer.

(* ===================================================================== *)
(** * wait_for_txs *)
(* ===================================================================== *)

Module Waiter.

(** Time is [time.monotonic()] counted in milliseconds, so that [timeout]
    is in milliseconds too and [int(remaining_timeout)] is a quotient by
    1000. The clock advances while the waiter sleeps, by the time asked for,
    and while a call to the client is in flight, by the latency the client
    gives; the statements in between take no time. *)

Definition txhash := string.

(** A list object lives in the heap and is named by its location, so that
    the caller's list and the waiter's working copy are distinct objects. *)
Definition loc := positive.

(** What [client.web3.eth.getTransaction(txhash)] evaluates to: [None], or a
    transaction whose ['blockNumber'] is [None] while it is pending. *)
Inductive tx_data : Type :=
| TxNone
| TxFound (blockNumber : option Z).

(** [tx and tx['blockNumber'] is not None] *)
Definition included (tx : tx_data) : bool :=
  match tx with
  | TxFound (Some _) => true
  | _ => false
  end.

(** Observable steps of a run, each stamped with the monotonic clock (in
    milliseconds) at which it started. *)
Inductive event : Type :=
| EvLog (t : Z) (outstanding : nat) (timeout_remaining : Z)
| EvQuery (t : Z) (h : txhash) (answer : string + tx_data)
| EvSleep (t : Z) (d : Z).

Section Model.

(** The remote node is a state machine behind the client: a query made at
    clock [t] for hash [h] yields an answer (an exception of the RPC layer or
    the transaction data), the node's next state and the time the call took. *)
Variable Chain : Type.
Variable getTransaction : Chain -> Z -> txhash -> (string + tx_data) * Chain * N.

Record World : Type := mkWorld {
  now : Z;                              (* time.monotonic(), in ms *)
  chain : Chain;
  heap : gmap loc (list txhash);
  trace : list event                    (* newest event first *)
}.

Inductive result (A : Type) : Type :=
| Ok (a : A) (w : World)
| Raise (e : exn) (w : World)
| OutOfFuel.
Arguments Ok {A} a w.
Arguments Raise {A} e w.
Arguments OutOfFuel {A}.

Definition M (A : Type) : Type := World -> result A.

Definition ret {A} (a : A) : M A := fun w => Ok a w.
Definition raise {A} (e : exn) : M A := fun w => Raise e w.
Definition bind {A B} (m : M A) (k : A -> M B) : M B :=
  fun w => match m w with
           | Ok a w' => k a w'
           | Raise e w' => Raise e w'
           | OutOfFuel => OutOfFuel
           end.

Notation "x <- m ;; k" := (bind m (fun x => k))
  (at level 100, m at next level, right associativity).
Notation "m ;;; k" := (bind m (fun _ => k))
  (at level 100, right associativity).

Definition emit (ev : event) (w : World) : World :=
  mkWorld (now w) (chain w) (heap w) (ev :: trace w).

(** [time.monotonic()] *)
Definition monotonic : M Z := fun w => Ok (now w) w.

(** [time.sleep(d)], [d] in milliseconds *)
Definition sleep (d : Z) : M unit :=
  fun w => Ok tt (mkWorld (now w + d) (chain w) (heap w) (EvSleep (now w) d :: trace w)).

(** [log.debug("Waiting for tx confirmations", outstanding=..., timeout_remaining=...)] *)
Definition log_debug (outstanding : nat) (timeout_remaining : Z) : M unit :=
  fun w => Ok tt (emit (EvLog (now w) outstanding timeout_remaining) w).

(** Reading a list object: its current elements. *)
Definition list_get (l : loc) : M (list txhash) :=
  fun w => match heap w !! l with
           | Some xs => Ok xs w
           | None => Raise DanglingReference w
           end.

(** [xs[:]] bound to a name: a new list object with the same elements. *)
Definition list_copy (l : loc) : M loc :=
  xs <- list_get l ;;
  fun w => let l' := fresh (dom (heap w)) in
           Ok l' (mkWorld (now w) (chain w) (<[l' := xs]> (heap w)) (trace w)).

(** [list.remove(x)] on plain lists: drops the first occurrence, [None] when
    there is none. *)
Fixpoint remove_first (x : txhash) (xs : list txhash) : option (list txhash) :=
  match xs with
  | [] => None
  | y :: ys => if String.eqb x y then Some ys
               else match remove_first x ys with
                    | Some ys' => Some (y :: ys')
                    | None => None
                    end
  end.

(** [l.remove(x)]: mutates the object in place, [ValueError] when absent. *)
Definition list_remove (l : loc) (x : txhash) : M unit :=
  xs <- list_get l ;;
  match remove_first x xs with
  | Some xs' => fun w => Ok tt (mkWorld (now w) (chain w) (<[l := xs']> (heap w)) (trace w))
  | None => raise (ValueError "list.remove(x): x not in list")
  end.

(** [client.web3.eth.getTransaction(txhash)]: the call takes some time, and an
    exception of the RPC layer is raised to the caller. *)
Definition get_transaction (h : txhash) : M tx_data :=
  fun w => let '(answer, c', latency) := getTransaction (chain w) (now w) h in
           let w' := mkWorld (now w + Z.of_N latency) c' (heap w)
                             (EvQuery (now w) h answer :: trace w) in
           match answer with
           | inl err => Raise (RpcError err) w'
           | inr tx => Ok tx w'
           end.

(** Lines 107-111: one pass over a snapshot of the outstanding hashes. The
    slice [txhashes[:]] iterated over is referenced by nothing else, so it is
    represented by its elements. *)
Fixpoint poll_all (txhashes : loc) (snapshot : list txhash) : M unit :=
  match snapshot with
  | [] => ret tt
  | txhash :: rest =>
      tx <- get_transaction txhash ;;
      (if included tx then list_remove txhashes txhash else ret tt) ;;;
      sleep 100 ;;;
      poll_all txhashes rest
  end.

(** [', '.join(txhashes)] inside the error message *)
Definition timeout_message (remaining : list txhash) : string :=
  String.append "Timeout waiting for txhashes: " (String.concat ", " remaining).

(** Lines 98-112: the [while] loop; each unit of fuel pays for one evaluation
    of the loop condition. [outstanding] starts as [False], which compares
    equal to 0. *)
Fixpoint wait_loop (fuel : nat) (start timeout : Z) (txhashes : loc)
    (outstanding : nat) : M unit :=
  match fuel with
  | O => fun _ => OutOfFuel
  | S fuel' =>
      xs <- list_get txhashes ;;
      go <- (match xs with
             | [] => ret false
             | _ => t <- monotonic ;; ret (t - start <? timeout)
             end) ;;
      if go : bool then
        t <- monotonic ;;
        let remaining_timeout := timeout - (t - start) in
        outstanding' <-
          (if negb (Nat.eqb outstanding (length xs))
              || (Z.quot remaining_timeout 1000 mod 10 =? 0)
           then log_debug (length xs) (Z.quot remaining_timeout 1000) ;;;
                ret (length xs)
           else ret outstanding) ;;
        snapshot <- list_get txhashes ;;
        poll_all txhashes snapshot ;;;
        sleep 500 ;;;
        wait_loop fuel' start timeout txhashes outstanding'
      else ret tt
  end.

(** [wait_for_txs(client, txhashes, timeout)]; [timeout] in milliseconds. *)
Definition wait_for_txs (fuel : nat) (txhashes : loc) (timeout : Z) : M unit :=
  start <- monotonic ;;
  txhashes <- list_copy txhashes ;;
  wait_loop fuel start timeout txhashes 0%nat ;;;
  xs <- list_get txhashes ;;
  if negb (Nat.eqb (length xs) 0)
  then raise (ScenarioTxError (timeout_message xs))
  else ret tt.

(** Fuel that always suffices: every pass sleeps at least 500 ms. *)
Definition fuel_for (timeout : Z) : nat := S (S (Z.to_nat (timeout / 500))).

(** *** Vocabulary of the specifications *)

(** The events a run added, oldest last: what [w'] recorded beyond [w]. *)
Definition events_since (w w' : World) : list event :=
  take (length (trace w') - length (trace w))%nat (trace w').

(** The world a run stopped in. *)
Definition final {A} (r : result A) (w : World) : World :=
  match r with
  | Ok _ w' => w'
  | Raise _ w' => w'
  | OutOfFuel => w
  end.





End Model.

Arguments Ok {Chain A} a w.
Arguments Raise {Chain A} e w.
Arguments OutOfFuel {Chain A}.
Arguments now {Chain} w.
Arguments chain {Chain} w.
Arguments heap {Chain} w.
Arguments trace {Chain} w.
Arguments mkWorld {Chain} now chain heap trace.

(** Some poll among [evs] saw [h] included in a block. *)
Definition observed_included (evs : list event) (h : txhash) : bool :=
  existsb (fun ev => match ev with
                     | EvQuery _ h' (inr tx) => String.eqb h h' && included tx
                     | _ => false
                     end) evs.

(** The identifiers of [txs] that no poll among [evs] saw included. *)
Definition unconfirmed (evs : list event) (txs : list txhash) : list txhash :=
  filter (fun h => observed_included evs h = false) txs.






(** The identifiers of [pending] whose answer in [given] was not a
    transaction in a block. *)
Fixpoint survivors (pending : list txhash) (given : list tx_data) : list txhash :=
  match pending, given with
  | h :: pending', tx :: given' =>
      if included tx then survivors pending' given'
      else h :: survivors pending' given'
  | _, _ => []
  end.




(** A query the RPC layer answered with an exception. *)
Definition is_rpc_failure (ev : event) : bool :=
  match ev with
  | EvQuery _ _ (inl _) => true
  | _ => false
  end.

(** No query among [evs] was answered with an exception. *)
Definition quiet (evs : list event) : Prop :=
  Forall (fun ev => is_rpc_failure ev = false) evs.


Section Shapes.

Variable Chain : Type.

(** [extends l w w']: from [w] to [w'] only events without RPC failure were
    added, the clock did not go back, and no list object other than [l] was
    touched. *)
Definition extends (l : loc) (w w' : World Chain) : Prop :=
  exists new, trace w' = new ++ trace w /\ quiet new
              /\ now w <= now w'
              /\ forall l', l' <> l -> heap w' !! l' = heap w !! l'.

(** A computation started in [w] either extends [w], or stops on an
    exception; an exception of the RPC layer is raised right after the
    failed query, which is then the newest event. *)
Definition shape {A} (l : loc) (w : World Chain) (r : result Chain A) : Prop :=
  match r with
  | Ok _ w' => extends l w w'
  | Raise e w' =>
      match e with
      | RpcError err => exists t h w0,
          extends l w w0 /\ trace w' = EvQuery t h (inl err) :: trace w0
          /\ heap w' = heap w0
      | _ => extends l w w'
      end
  | OutOfFuel => True
  end.

End Shapes.

Arguments extends {Chain} l w w'.
Arguments shape {Chain A} l w r.

(** In [evs] (newest first) every query is for a hash of [txs] that no
    earlier poll saw included. *)
Fixpoint polls_only_pending (txs : list txhash) (evs : list event) : Prop :=
  match evs with
  | [] => True
  | ev :: older =>
      polls_only_pending txs older
      /\ match ev with
         | EvQuery _ h _ => h ∈ unconfirmed older txs
         | _ => True
         end
  end.

(** *** Clients and worlds of the examples *)

(** [tx1] is included from the start; [tx2] is reported pending on its first
    three polls and included afterwards. The state counts the polls of [tx2];
    calls take no time. *)
Definition slow_client (n : nat) (t : Z) (h : txhash)
    : (string + tx_data) * nat * N :=
  if String.eqb h "tx1" then (inr (TxFound (Some 7)), n, 0%N)
  else if (3 <=? n)%nat then (inr (TxFound (Some 8)), S n, 0%N)
  else (inr (TxFound None), S n, 0%N).

(** The first call fails with a connection error; every later call reports
    the transaction included. The state counts the calls. *)
Definition flaky_client (n : nat) (t : Z) (h : txhash)
    : (string + tx_data) * nat * N :=
  match n with
  | O => (inl "ConnectionError", 1%nat, 0%N)
  | S _ => (inr (TxFound (Some 7)), S n, 0%N)
  end.

(** Nothing is ever included; calls take no time. *)
Definition never_client (c : unit) (t : Z) (h : txhash)
    : (string + tx_data) * unit * N :=
  (inr (TxFound None), tt, 0%N).



(** The caller holds an empty list at location 1; the clock reads 5. *)
Definition nothing_pending : World unit :=
  mkWorld 5 tt {[ 1%positive := [] ]} [].


(** The caller holds the list [["tx1"; "tx2"]] at location 1; the clock
    reads 0 and nothing has happened yet. *)
Definition two_pending : World nat :=
  mkWorld 0 0%nat {[ 1%positive := ["tx1"; "tx2"] ]} [].

(** Twenty identifiers, and a caller that holds them at location 1. *)
Definition twenty : list txhash :=
  ["tx01"; "tx02"; "tx03"; "tx04"; "tx05"; "tx06"; "tx07"; "tx08"; "tx09"; "tx10";
   "tx11"; "tx12"; "tx13"; "tx14"; "tx15"; "tx16"; "tx17"; "tx18"; "tx19"; "tx20"].


End Waiter.
(* ===================================================================== *)
(** * get_or_deploy_token *)
(* ===================================================================== *)

Module Token.

(** Scalars of the scenario file. *)
Inductive scalar : Type :=
| SNone
| SStr (s : string)
| SInt (z : Z).

(** Python truthiness, as [if address:] tests it. *)
Definition truthy (v : scalar) : bool :=
  match v with
  | SNone => false
  | SStr s => negb (String.eqb s "")
  | SInt z => negb (z =? 0)
  end.

(** The scenario: a dict from section names to mappings; a section written
    without content is [None]. *)
Abbreviation mapping := (gmap string scalar).
Abbreviation scenario := (gmap string (option mapping)).

(** What the function asks of the client, in the order it asks. *)
Inductive call : Type :=
| CheckCode (address : scalar) (what : string)
| NewContractProxy (abi : string) (address : scalar)
| CallName (address : scalar)
| CallSymbol (address : scalar)
| DeployContract (contract : string) (constructor_parameters : Z * Z * scalar * scalar)
                 (confirmations : nat).

Inductive log_line : Type :=
| ReusingToken (address : string) (name symbol : string)
| DeployingToken (name symbol : scalar)
| DeployedToken (address : string) (name symbol : scalar).

(** A [ContractProxy]: the address of the contract it talks to. *)
Record proxy : Type := mkProxy { contract_address : scalar }.

Section Model.

(** The node behind the client: which addresses hold code, what the token
    at an address answers, and where a deployment ends up. *)
Variable Node : Type.
Variable has_code : Node -> scalar -> bool.
Variable token_name token_symbol : Node -> scalar -> string.
Variable deploy : Node -> Z * Z * scalar * scalar -> string * Node.

(** [CONTRACT_MANAGER.get_contract(CONTRACT_CUSTOM_TOKEN)['abi']] *)
Variable token_contract_abi : string.

(** [eth_utils.to_checksum_address]: the address in its checksum form, or
    the exception raised for what is no address. *)
Variable to_checksum_address : scalar -> string + exn.

Record World : Type := mkWorld {
  node : Node;
  uuid4 : string;          (* str(uuid.uuid4()) of this run *)
  now : string;            (* datetime.now() formatted %Y-%m-%dT%H:%M *)
  calls : list call;       (* newest first *)
  logs : list log_line     (* newest first *)
}.

Inductive result (A : Type) : Type :=
| Ok (a : A) (w : World)
| Raise (e : exn) (w : World).
Arguments Ok {A} a w.
Arguments Raise {A} e w.

Definition M (A : Type) : Type := World -> result A.
Definition ret {A} (a : A) : M A := fun w => Ok a w.
Definition bind {A B} (m : M A) (k : A -> M B) : M B :=
  fun w => match m w with
           | Ok a w' => k a w'
           | Raise e w' => Raise e w'
           end.

Notation "x <- m ;; k" := (bind m (fun x => k))
  (at level 100, m at next level, right associativity).
Notation "m ;;; k" := (bind m (fun _ => k))
  (at level 100, right associativity).

Definition record_call (c : call) (w : World) : World :=
  mkWorld (node w) (uuid4 w) (now w) (c :: calls w) (logs w).

Definition log (l : log_line) : M unit :=
  fun w => Ok tt (mkWorld (node w) (uuid4 w) (now w) (calls w) (l :: logs w)).

(** Modelled from the spec: [check_address_has_code] of
    [raiden.network.rpc.client] is not among the sources; the contract
    resolver raises if a configured address has no deployed code. *)
Definition check_address_has_code (address : scalar) (what : string) : M unit :=
  fun w => let w' := record_call (CheckCode address what) w in
           if has_code (node w) address then Ok tt w'
           else Raise (AddressWithoutCode what) w'.

(** A call of [to_checksum_address]; it asks nothing of the client. *)
Definition checksum_address (address : scalar) : M string :=
  fun w => match to_checksum_address address with
           | inl a => Ok a w
           | inr e => Raise e w
           end.

(** [client.new_contract_proxy(abi, address)] *)
Definition new_contract_proxy (abi : string) (address : scalar) : M proxy :=
  fun w => Ok (mkProxy address) (record_call (NewContractProxy abi address) w).

(** [token_ctr.contract.functions.name().call()] and [symbol().call()] *)
Definition call_name (p : proxy) : M string :=
  fun w => Ok (token_name (node w) (contract_address p))
              (record_call (CallName (contract_address p)) w).
Definition call_symbol (p : proxy) : M string :=
  fun w => Ok (token_symbol (node w) (contract_address p))
              (record_call (CallSymbol (contract_address p)) w).

(** [client.deploy_solidity_contract(name, contracts, constructor_parameters,
    confirmations)]: returns the proxy of the new contract once the
    deployment has the confirmations asked for. *)
Definition deploy_solidity_contract (contract : string)
    (constructor_parameters : Z * Z * scalar * scalar) (confirmations : nat) : M proxy :=
  fun w => let '(address, node') := deploy (node w) constructor_parameters in
           Ok (mkProxy (SStr address))
              (mkWorld node' (uuid4 w) (now w)
                 (DeployContract contract constructor_parameters confirmations :: calls w)
                 (logs w)).

(** [f"Scenario Test Token {token_id!s} {now:%Y-%m-%dT%H:%M}"] *)
Definition generated_name (token_id now : string) : string :=
  String.append "Scenario Test Token "
    (String.append token_id (String.append " " now)).

(** [f"T{token_id!s:.3}"]: the precision keeps the first three characters. *)
Definition generated_symbol (token_id : string) : string :=
  String.append "T" (String.substring 0 3 token_id).

(** [d.get(key)] and [d.get(key, default)] *)
Definition dict_get (d : mapping) (key : string) (default : scalar) : scalar :=
  match d !! key with
  | Some v => v
  | None => default
  end.

(** Lines 121-123: [scenario.get('token', {})], with [{}] for a section
    that is there but empty. *)
Definition token_config_of (scn : scenario) : mapping :=
  match scn !! "token" with
  | Some (Some m) => m
  | Some None => ∅          (* [if not token_config: token_config = {}] *)
  | None => ∅               (* the default of [scenario.get] *)
  end.

Definition get_or_deploy_token (scn : scenario) : M proxy :=
  let token_config := token_config_of scn in
  let address := dict_get token_config "address" SNone in
  if truthy address then
    check_address_has_code address "Token" ;;;
    token_ctr <- new_contract_proxy token_contract_abi address ;;
    (* the arguments of [log.debug], in the order they are written *)
    checksum <- checksum_address address ;;
    name <- call_name token_ctr ;;
    symbol <- call_symbol token_ctr ;;
    log (ReusingToken checksum name symbol) ;;;
    ret token_ctr
  else
    fun w =>
      let token_id := uuid4 w in
      let now := now w in
      let name := dict_get token_config "name" (SStr (generated_name token_id now)) in
      let symbol := dict_get token_config "symbol" (SStr (generated_symbol token_id)) in
      (log (DeployingToken name symbol) ;;;
       token_ctr <- deploy_solidity_contract "CustomToken" (0, 0, name, symbol) 1 ;;
       checksum <- checksum_address (contract_address token_ctr) ;;
       log (DeployedToken checksum name symbol) ;;;
       ret token_ctr) w.

End Model.


Arguments Ok {Node A} a w.
Arguments Raise {Node A} e w.

(** *** The nodes and scenarios of the examples *)

(** The addresses of the examples are written with decimal digits only:
    such an address is its own checksum form, since the checksum only
    changes the case of the letters [a] to [f]. *)
Definition token_address : string := "0x0000000000000000000000000000000000000042".
Definition new_address : string := "0x0000000000000000000000000000000000000099".

Definition is_digit (c : ascii) : bool :=
  (48 <=? nat_of_ascii c)%nat && (nat_of_ascii c <=? 57)%nat.

Fixpoint all_digits (s : string) : bool :=
  match s with
  | EmptyString => true
  | String c rest => is_digit c && all_digits rest
  end.

(** The conversion of the examples: ["0x"] and forty decimal digits convert
    to themselves; anything else the examples hand to it is no address. *)
Definition checksum_of_digits (address : scalar) : string + exn :=
  match address with
  | SStr (String "0" (String "x" body) as a) =>
      if (String.length body =? 40)%nat && all_digits body then inl a
      else inr (ValueError "Unknown format")
  | _ => inr (ValueError "Unknown format")
  end.

(** Code lives at [token_address] only; deployments land at [new_address].
    The node has no state of its own. *)
Definition node_has_code (n : unit) (address : scalar) : bool :=
  match address with
  | SStr s => String.eqb s token_address
  | _ => false
  end.
Definition node_token_name (n : unit) (address : scalar) : string := "Existing".
Definition node_token_symbol (n : unit) (address : scalar) : string := "EXT".
Definition node_deploy (n : unit) (params : Z * Z * scalar * scalar) : string * unit :=
  (new_address, tt).

Definition fresh_run : World unit :=
  mkWorld unit tt "3f2a9c1e-0000-4000-8000-000000000000" "2018-10-01T12:00" [] [].

Definition scenario_plain : scenario := {[ "token" := None ]}.

(** [get_or_deploy_token] on the node of the examples. *)
Definition resolve_example (has_code : unit -> scalar -> bool) (scn : scenario)
    : result unit proxy :=
  get_or_deploy_token unit has_code node_token_name node_token_symbol
    node_deploy "abi" checksum_of_digits scn fresh_run.

End Token.

(* ===================================================================== *)
(** * get_gas_price_strategy *)
(* ===================================================================== *)

Module Gas.

(** The Python values the function may be handed. [bool] is a subclass of
    [int]; an object of any other type is known by what [str()] gives. *)
Inductive pyvalue : Type :=
| PyInt (z : Z)
| PyBool (b : bool)
| PyStr (s : string)
| PyNone
| PyOther (str : string).

(** [isinstance(v, int)] *)
Definition isinstance_int (v : pyvalue) : bool :=
  match v with
  | PyInt _ | PyBool _ => true
  | _ => false
  end.

(** [v == s] for a string literal [s] *)
Definition eq_str (v : pyvalue) (s : string) : bool :=
  match v with
  | PyStr s' => String.eqb s' s
  | _ => false
  end.

(** [str(v)], as the f-string formats it *)
Definition py_str (v : pyvalue) : string :=
  match v with
  | PyInt z => NilZero.string_of_int (Z.to_int z)
  | PyBool true => "True"
  | PyBool false => "False"
  | PyStr s => s
  | PyNone => "None"
  | PyOther s => s
  end.

Definition dquote : string := String (ascii_of_nat 34) "".

Section Strategies.

(** [web3] and the transaction parameters a strategy is called with, and the
    two time-based strategies imported from [web3.gas_strategies]. *)
Variables Web3 Tx : Type.
Variables fast_gas_price_strategy medium_gas_price_strategy : Web3 -> Tx -> pyvalue.

Definition get_gas_price_strategy (gas_price : pyvalue)
    : (Web3 -> Tx -> pyvalue) + exn :=
  if isinstance_int gas_price then
    let fixed_gas_price := fun (web3 : Web3) (tx : Tx) => gas_price in
    inl fixed_gas_price
  else if eq_str gas_price "fast" then inl fast_gas_price_strategy
  else if eq_str gas_price "medium" then inl medium_gas_price_strategy
  else inr (ValueError (String.append "Invalid gas_price value: "
                          (String.append dquote
                             (String.append (py_str gas_price) dquote)))).

End Strategies.

(** The strategies of the examples: gas prices in wei. *)
Definition fast_example (web3 tx : unit) : pyvalue := PyInt 20000000000.
Definition medium_example (web3 tx : unit) : pyvalue := PyInt 5000000000.

End Gas.

(* ===================================================================== *)
(** * TimeOutHTTPAdapter *)
(* ===================================================================== *)

Module TimeOutHTTPAdapter.

(** Python objects as far as the adapter looks at them: a timeout is [None],
    a number of seconds (here in thousandths) or a (connect, read) tuple;
    any other object comes with its truth value. *)
Inductive value : Type :=
| VNone
| VNumber (thousandths : Z)
| VTuple (items : list (option Z))
| VOther (truth : bool) (repr : string).

(** [bool(v)] *)
Definition truthy (v : value) : bool :=
  match v with
  | VNone => false
  | VNumber z => negb (z =? 0)
  | VTuple items => match items with [] => false | _ => true end
  | VOther b _ => b
  end.

Abbreviation kwargs := (gmap string value).

(** An instance: the [timeout] attribute, and the arguments its
    [HTTPAdapter] part was initialised with. *)
Record t : Type := mk {
  timeout : value;
  base_args : list value;
  base_kwargs : kwargs
}.

(** [__init__]: [self.timeout = kwargs.pop('timeout', None)], then the
    [__init__] of [HTTPAdapter] with the positional arguments and with what
    is left of the keywords. *)
Definition __init__ (args : list value) (kw : kwargs) : t :=
  mk (default VNone (kw !! "timeout")) args (delete "timeout" kw).

(** [send]: the call handed on to [HTTPAdapter.send]. The
    [or] does not look at [kwargs['timeout']] when the key is missing. *)
Definition send (self : t) (args : list value) (kw : kwargs)
    : list value * kwargs :=
  match kw !! "timeout" with
  | None => (args, <["timeout" := timeout self]> kw)
  | Some v =>
      if negb (truthy v) then (args, <["timeout" := timeout self]> kw)
      else (args, kw)
  end.

(** *** The adapters and requests of the examples *)

(** A session mounts the adapter with a timeout of 2 s and 5 retries. *)
Definition two_seconds : t :=
  __init__ [] (<["timeout" := VNumber 2000]> {[ "max_retries" := VNumber 5000 ]}).

(** A request sent with [timeout=None] and [stream=False]. *)
Definition plain_request : kwargs :=
  <["timeout" := VNone]> {[ "stream" := VOther false "False" ]}.

End TimeOutHTTPAdapter.

(* ===================================================================== *)
(** * raw_input *)
(* ===================================================================== *)

Module RawInput.

Section Model.

(** The terminal attributes [termios.tcgetattr] returns, what
    [tty.setcbreak] turns them into, and the flag bits of [os.O_NONBLOCK]. *)
Variable Attrs : Type.
Variable setcbreak : Attrs -> Attrs.
Variable O_NONBLOCK : Z.

(** What the context manager touches of the stream: its terminal attributes
    and its file status flags. *)
Record stream : Type := mkStream {
  stty : Attrs;
  fl : Z
}.

(** How the [with] statement ends when it does not end normally. *)
Inductive failure : Type :=
| TermiosError                   (* [tcgetattr] on something that is no terminal *)
| Raised (e : exn).              (* the body of the [with] raised *)

(** Lines 177-180: the stream as the body of the [with] finds it. *)
Definition enter (s : stream) : stream :=
  let original_stty := stty s in
  let original_fl := fl s in
  let s1 := mkStream (setcbreak (stty s)) (fl s) in
  mkStream (stty s1) (Z.lor original_fl O_NONBLOCK).

(** [with raw_input(stream): body]. The generator has no [try]: when the
    body raises, the exception is thrown in at the [yield] and the two
    lines after it do not run. *)
Definition raw_input (is_a_tty : bool) (body : stream -> (unit + exn) * stream)
    (s : stream) : (unit + failure) * stream :=
  if negb is_a_tty then (inr TermiosError, s)
  else
    let original_stty := stty s in
    let original_fl := fl s in
    match body (enter s) with
    | (inl _, s') =>
        let s2 := mkStream (stty s') original_fl in
        (inl tt, mkStream original_stty (fl s2))
    | (inr e, s') => (inr (Raised e), s')
    end.

End Model.

Arguments mkStream {Attrs} stty fl.
Arguments stty {Attrs} s.
Arguments fl {Attrs} s.

(** *** The terminal of the examples *)

(** Attributes are the pair (echo, canonical); cbreak mode switches both
    off. [O_NONBLOCK] is 2048 and the stream is open read-write (flag 2). *)
Definition cbreak_example (a : bool * bool) : bool * bool := (false, false).
Definition cooked : stream (bool * bool) := mkStream (true, true) 2.

(** A body that reads a key and leaves the stream alone, one that switches
    the flags to 0 on its way, and one that fails. *)
Definition quiet_body (s : stream (bool * bool)) : (unit + exn) * stream (bool * bool) :=
  (inl tt, s).
Definition meddling_body (s : stream (bool * bool)) : (unit + exn) * stream (bool * bool) :=
  (inl tt, mkStream (true, false) 0).
Definition failing_body (s : stream (bool * bool)) : (unit + exn) * stream (bool * bool) :=
  (inr (ValueError "bad key"), s).

End RawInput.

(* ===================================================================== *)
(** * send_notification_mail and main *)
(* ===================================================================== *)

Module Main.

(** A Python string option as [if x:] tests it: [None] and the empty string
    are falsy. *)
Definition truthy (x : option string) : bool :=
  match x with
  | None => false
  | Some s => negb (String.eqb s "")
  end.

(** What a call into a library comes back with. *)
Inductive attempt (A : Type) : Type :=
| Done (a : A)
| Fails (e : exn).
Arguments Done {A} a.
Arguments Fails {A} e.

Inductive level : Type := Debug | Info | Warning | Error | Exception.

Inductive field : Type :=
| FStr (s : string)
| FInt (z : Z).

(** The form posted to mailgun: [auth=("api", api_key)] and the [to],
    [subject] and [text] entries of [data]. *)
Record mail : Type := mkMail {
  mail_to : option string;
  subject : string;
  text : string;
  api_key : option string
}.

(** [res.status_code] and [res.text] *)
Record response : Type := mkResponse {
  status_code : Z;
  body : string
}.

(** What a run does to the outside, in the order it does it. *)
Inductive event : Type :=
| SetExceptionStream
| Secho (message : string)
| ConfigureLogging (debug_log_file_name : string)
| RedirectHandler (index : nat)
| Log (lvl : level) (what : string) (fields : list (string * field))
| PrintRmam
| PrintSmam
| Spawn_ui (log_file_name : string)
| RunScenario
| Post (m : mail)
| SleepForever.

Definition trace := list event.          (* newest first *)

(** How a call ends: it returns, it raises, or it never comes back. *)
Inductive result (A : Type) : Type :=
| Ok (a : A) (tr : trace)
| Raise (e : exn) (tr : trace)
| Hang (tr : trace).
Arguments Ok {A} a tr.
Arguments Raise {A} e tr.
Arguments Hang {A} tr.

Definition trace_of {A} (r : result A) : trace :=
  match r with
  | Ok _ tr | Raise _ tr | Hang tr => tr
  end.

(** The mails posted, oldest first. *)
Fixpoint posts (tr : trace) : list mail :=
  match tr with
  | [] => []
  | Post m :: tr' => posts tr' ++ [m]
  | _ :: tr' => posts tr'
  end.

(** The runner as [main] uses it; [ScenarioRunner] is not among the
    sources. *)
Record Runner (Errors : Type) : Type := mkRunner {
  notification_email : option string;
  run_scenario : attempt Errors
}.
Arguments mkRunner {Errors} notification_email run_scenario.
Arguments notification_email {Errors} r.
Arguments run_scenario {Errors} r.

Section Model.

(** The surroundings of a run. *)
Variable Errors : Type.                          (* what [run_scenario] returns *)
Variable has_errors : Errors -> bool.            (* [if assert_errors:] *)
Variable json_dumps : Errors -> attempt string.
Variable format_exc : exn -> string.             (* [traceback.format_exc()] *)
Variable post : nat -> mail -> attempt response. (* [requests.post], by the number of earlier posts *)
Variable basename : string -> string.
Variable now_text : string.                      (* [datetime.now()] as [%Y-%m-%dT%H:%M:%S] *)
Variable handlers : list bool.                   (* the root logger's handlers: is it a [StreamHandler]? *)
Variable load_account : attempt string.          (* keystore and password give the checksum address *)
Variable make_runner : attempt (Runner Errors).  (* [ScenarioRunner(account, rpc_url, auth, scenario_file)] *)
Variable is_a_tty : bool.                        (* [terminal.is_a_tty] *)

Definition M (A : Type) : Type := trace -> result A.
Definition ret {A} (a : A) : M A := fun tr => Ok a tr.
Definition raise {A} (e : exn) : M A := fun tr => Raise e tr.
Definition bind {A B} (m : M A) (k : A -> M B) : M B :=
  fun tr => match m tr with
            | Ok a tr' => k a tr'
            | Raise e tr' => Raise e tr'
            | Hang tr' => Hang tr'
            end.

Notation "x <- m ;; k" := (bind m (fun x => k))
  (at level 100, m at next level, right associativity).
Notation "m ;;; k" := (bind m (fun _ => k))
  (at level 100, right associativity).

Definition emit (e : event) : M unit := fun tr => Ok tt (e :: tr).

Definition log (lvl : level) (what : string) (fields : list (string * field)) : M unit :=
  emit (Log lvl what fields).

Definition lift {A} (a : attempt A) : M A :=
  match a with
  | Done x => ret x
  | Fails e => raise e
  end.

(** [requests.post(url, auth=..., data=...)] *)
Definition requests_post (m : mail) : M response :=
  fun tr => lift (post (length (posts tr)) m) (Post m :: tr).

(** utils.py, lines 160-172. *)
Definition send_notification_mail (target_mail : option string)
    (subject message : string) (api_key : option string) : M unit :=
  log Debug "Sending notification mail"
      [("subject", FStr subject); ("message", FStr message)] ;;;
  res <- requests_post (mkMail target_mail subject message api_key) ;;
  log Debug "Notification mail result"
      [("code", FInt (status_code res)); ("text", FStr (body res))].

(** Line 92. *)
Definition log_file_name_of (scenario_file_name : string) : string :=
  String.append "scenario-player_"
    (String.append (basename scenario_file_name)
       (String.append "_" (String.append now_text ".log"))).

(** Lines 100-103: the first stream handler gets the log buffer. *)
Fixpoint first_stream_handler (hs : list bool) (index : nat) : option nat :=
  match hs with
  | [] => None
  | is_stream :: hs' =>
      if is_stream then Some index else first_stream_handler hs' (S index)
  end.

Definition redirect_handler : M unit :=
  match first_stream_handler handlers 0 with
  | Some i => emit (RedirectHandler i)
  | None => ret tt
  end.

(** Lines 113-136, the body of the [try]; [Some 1] is [return 1]. *)
Definition try_block (runner : Runner Errors) (scenario_file_name : string)
    (mailgun_api_key : option string) : M (option Z) :=
  emit RunScenario ;;;
  assert_errors <- lift (run_scenario runner) ;;
  (if has_errors assert_errors
   then log Error "Run finished" [("result", FStr "assertion errors")]
   else log Info "Run finished" [("result", FStr "success")]) ;;;
  if truthy (notification_email runner) then
    if negb (truthy mailgun_api_key) then
      log Error "Can't send notification mail. No API key provided" [] ;;;
      ret (Some 1)
    else
      log Info "Sending notification mail" [] ;;;
      (if has_errors assert_errors then
         message <- lift (json_dumps assert_errors) ;;
         send_notification_mail (notification_email runner)
           (String.append "Unexpected channel balances in " scenario_file_name)
           message mailgun_api_key
       else
         send_notification_mail (notification_email runner)
           (String.append "Scenario successful " scenario_file_name)
           "Success" mailgun_api_key) ;;;
      ret None
  else ret None.

(** Lines 137-145, the [except Exception] clause. *)
Definition except_block (runner : Runner Errors) (scenario_file_name : string)
    (mailgun_api_key : option string) (e : exn) : M unit :=
  (if truthy (notification_email runner) && truthy mailgun_api_key then
     send_notification_mail (notification_email runner)
       (String.append "Error running scenario " scenario_file_name)
       (format_exc e) mailgun_api_key
   else ret tt) ;;;
  log Exception "Exception while running scenario" [].

(** [try: body except Exception: handler]: after the handler the function
    runs off its end and returns [None]. *)
Definition try_except (body : M (option Z)) (handler : exn -> M unit) : M (option Z) :=
  fun tr => match body tr with
            | Raise e tr' => (handler e ;;; ret None) tr'
            | r => r
            end.

(** Lines 146-152, the [finally] clause, run on whatever the [try]
    statement came to: on a terminal it never ends, otherwise the pending
    return or exception goes on after it. *)
Definition finally_block (r : result (option Z)) : result (option Z) :=
  if is_a_tty then
    Hang (SleepForever :: Log Warning "Press Ctrl-C to exit" [] :: trace_of r)
  else
    match r with
    | Ok v tr => Ok v (PrintSmam :: tr)
    | Raise e tr => Raise e (PrintSmam :: tr)
    | Hang tr => Hang tr
    end.

(** main.py, lines 89-152. *)
Definition main (scenario_file_name : string) (mailgun_api_key : option string)
    : result (option Z) :=
  (emit SetExceptionStream ;;;
   let log_file_name := log_file_name_of scenario_file_name in
   emit (Secho (String.append "Writing log to " log_file_name)) ;;;
   emit (ConfigureLogging log_file_name) ;;;
   redirect_handler ;;;
   address <- lift load_account ;;
   log Info "Using account" [("account", FStr address)] ;;;
   runner <- lift make_runner ;;
   emit PrintRmam ;;;
   emit (Spawn_ui log_file_name) ;;;
   fun tr =>
     finally_block
       (try_except (try_block runner scenario_file_name mailgun_api_key)
                   (except_block runner scenario_file_name mailgun_api_key) tr))
  [].

End Model.

(** The mail of the [except] clause. *)
Definition error_mail {Errors} (format_exc : exn -> string)
    (runner : Runner Errors) (scenario_file_name : string)
    (mailgun_api_key : option string) (e : exn) : mail :=
  mkMail (notification_email runner)
         (String.append "Error running scenario " scenario_file_name)
         (format_exc e) mailgun_api_key.

(** The mail a finished run is reported with. *)
Definition result_mail {Errors} (has_errors : Errors -> bool)
    (json_dumps : Errors -> attempt string) (format_exc : exn -> string)
    (runner : Runner Errors) (scenario_file_name : string)
    (mailgun_api_key : option string) : mail :=
  let to := notification_email runner in
  match run_scenario runner with
  | Fails e => error_mail format_exc runner scenario_file_name mailgun_api_key e
  | Done assert_errors =>
      if has_errors assert_errors then
        match json_dumps assert_errors with
        | Done message =>
            mkMail to (String.append "Unexpected channel balances in " scenario_file_name)
                   message mailgun_api_key
        | Fails e => error_mail format_exc runner scenario_file_name mailgun_api_key e
        end
      else
        mkMail to (String.append "Scenario successful " scenario_file_name)
               "Success" mailgun_api_key
  end.

(** *** The surroundings of the examples *)

(** Assertion errors are a list of messages, dumped as their concatenation;
    a traceback is the name of the exception's class. *)
Definition dumps_example (errors : list string) : attempt string :=
  Done (String.concat ", " errors).
Definition has_errors_example (errors : list string) : bool :=
  match errors with [] => false | _ => true end.
Definition format_exc_example (e : exn) : string :=
  match e with
  | TypeError _ => "TypeError"
  | IndexError => "IndexError"
  | ValueError _ => "ValueError"
  | ScenarioTxError _ => "ScenarioTxError"
  | RpcError _ => "RpcError"
  | AddressWithoutCode _ => "AddressWithoutCode"
  | KeyError => "KeyError"
  | OverflowError _ => "OverflowError"
  | DanglingReference => "DanglingReference"
  end.
Definition mailgun_accepts (n : nat) (m : mail) : attempt response :=
  Done (mkResponse 200 "Queued").
Definition mailgun_down_once (n : nat) (m : mail) : attempt response :=
  match n with
  | O => Fails (RpcError "ConnectionError")
  | S _ => Done (mkResponse 200 "Queued")
  end.

Definition clean_runner : Runner (list string) :=
  mkRunner (Some "ops@example.org") (Done []).

Definition main_example (post : nat -> mail -> attempt response)
    (runner : attempt (Runner (list string))) (is_a_tty : bool)
    (key : option string) : result (option Z) :=
  main (list string) has_errors_example dumps_example format_exc_example post
       (fun s => s) "2018-09-01T12:00:00" [false; true] (Done "0xAcc0")
       runner is_a_tty "s.yaml" key.

End Main.

(* ===================================================================== *)
(** * _ui *)
(* ===================================================================== *)

Module Ui.
Import Main.

(** Modelled from the spec: [TaskState] of [scenario_player.tasks] is not
    among the sources; a task's state is one of PENDING, RUNNING, FINISHED
    and ERRORED. *)
Inductive TaskState : Type := PENDING | RUNNING | FINISHED | ERRORED.

(** What a frame reads of the terminal and of the runner: the size, the
    root task (its state and its [str]) once there is one, and the counts
    of the status line. *)
Record view : Type := mkView {
  height : nat;
  width : nat;
  root_task : option (TaskState * string);
  raiden_nodes : nat;
  task_count : Z;
  running_task_count : Z
}.

(** The local variables of the loop; [scrollback] is never assigned
    again. *)
Record state : Type := mkState {
  last_height : Z;
  last_width : Z;
  separator : Z
}.

Definition scrollback : Z := 0.

(** Lines 26-29. *)
Definition initial : state := mkState 0 0 1.

Inductive color : Type := Blue | Green | Red.

(** What a frame prints, in the order it prints it. Task and log lines go
    out with [term.clear_eol] behind them. *)
Inductive draw : Type :=
| Clear
| Bar (row : Z) (c : color) (title : string) (w : Z)
| TaskLines (lines : list string)
| LogLine (line : string) (newline : bool)
| Status (row : Z) (nodes : nat) (tasks running : Z) (log_file_name : string)
| Sleep.

(** [lines[:n]] *)
Definition slice_to {A} (lines : list A) (n : Z) : list A :=
  if n <? 0 then take (length lines - Z.to_nat (- n)) lines
  else take (Z.to_nat n) lines.

(** [log_buffer.getlines(start, stop)] on Python integers: [islice] takes
    no negative index. *)
Definition getlines (buf : LogBuffer.t) (start stop : Z) : attempt (list string) :=
  if negb (stop =? 0) then
    if (start <? 0) || (stop <? 0)
    then Fails (ValueError "Indices for islice() must be None or an integer: 0 <= x <= sys.maxsize.")
    else Done (LogBuffer.getlines buf (Z.to_nat start) (Some (Z.to_nat stop)))
  else
    if start <? 0
    then Fails (ValueError "Indices for islice() must be None or an integer: 0 <= x <= sys.maxsize.")
    else Done (LogBuffer.getlines buf (Z.to_nat start) None).

(** Lines 64-66: [enumerate(log_lines, start=1)]. *)
Fixpoint log_prints (line_count i : Z) (log_lines : list string) : list draw :=
  match log_lines with
  | [] => []
  | line :: rest => LogLine line (i <? line_count) :: log_prints line_count (i + 1) rest
  end.

(** Lines 31-36. *)
Definition size_changed (st : state) (v : view) : bool :=
  negb (Z.of_nat (height v) =? last_height st)
  || negb (Z.of_nat (width v) =? last_width st)
  || (match root_task v with Some _ => separator st =? 1 | None => false end).

(** Lines 37-42. *)
Definition resized (st : state) (v : view) : state :=
  if size_changed st v then
    mkState (Z.of_nat (height v)) (Z.of_nat (width v))
            (match root_task v with
             | Some _ => Z.quot (Z.of_nat (height v) - 1) 3 * 2
             | None => separator st
             end)
  else st.

(** Lines 44-49. *)
Definition bar_color (v : view) : color :=
  match root_task v with
  | Some (FINISHED, _) => Green
  | Some (ERRORED, _) => Red
  | _ => Blue
  end.

(** One turn of the loop, lines 31-79: what it prints, and the local
    variables after it or the exception that ends the loop. *)
Definition frame (log_file_name : string) (st : state) (v : view)
    (log_buffer : LogBuffer.t) : list draw * attempt state :=
  let cleared := if size_changed st v then [Clear] else [] in
  let st := resized st v in
  let tasks :=
    Bar 0 (bar_color v) " TASKS " (Z.of_nat (width v))
    :: match root_task v with
       | Some (_, text) => [TaskLines (slice_to (LogBuffer.splitlines text) (separator st))]
       | None => []
       end in
  let log_bar := Bar (separator st) (bar_color v) " LOG " (Z.of_nat (width v)) in
  let line_count := Z.of_nat (height v) - separator st - 1 in
  match getlines log_buffer scrollback (line_count + scrollback) with
  | Fails e => (cleared ++ tasks ++ [log_bar], Fails e)
  | Done log_lines =>
      (cleared ++ tasks ++ [log_bar] ++ log_prints line_count 1 log_lines
       ++ [Status (Z.of_nat (height v) - 1) (raiden_nodes v) (task_count v)
                  (running_task_count v) log_file_name;
           Sleep],
       Done st)
  end.

(** The loop over the frames that are given: it goes on until a frame
    raises. *)
Fixpoint _ui (log_file_name : string) (frames : list (view * LogBuffer.t))
    (st : state) : list draw * attempt state :=
  match frames with
  | [] => ([], Done st)
  | (v, log_buffer) :: rest =>
      match frame log_file_name st v log_buffer with
      | (out, Done st') =>
          let '(out', r) := _ui log_file_name rest st' in (out ++ out', r)
      | (out, Fails e) => (out, Fails e)
      end
  end.

(** *** Vocabulary of the facts *)

Definition has_root (v : view) : Prop := root_task v <> None.

(** The runner's root task, once set, stays. *)
Fixpoint root_stays (views : list view) : Prop :=
  match views with
  | [] => True
  | v :: rest => (has_root v -> Forall has_root rest) /\ root_stays rest
  end.

(** The log lines a frame printed. *)
Fixpoint log_lines_of (out : list draw) : list string :=
  match out with
  | [] => []
  | LogLine line _ :: rest => line :: log_lines_of rest
  | _ :: rest => log_lines_of rest
  end.

(** *** The terminals of the examples *)

Definition starting (h : nat) : view := mkView h 80 None 0 0 0.
Definition running (h : nat) : view :=
  mkView h 80 (Some (RUNNING, "serial
  transfer")) 2 3 1.

Definition three_lines : LogBuffer.t :=
  LogBuffer.writes (LogBuffer.__init__ 1000) ["one
two
three"].

End Ui.

(* ===================================================================== *)
(** * wait_for_txs on the clock Python reads *)
(* ===================================================================== *)

Module WaiterTiming.
Import Waiter.

(** [Waiter] counts time in whole milliseconds on a clock of its own. Here
    the loop of [wait_for_txs] is written with the numbers Python computes
    with: [time.monotonic()] returns a float, a binary64 number, and the
    subtractions and the comparison of lines 98 and 99 round as binary64
    arithmetic does; these are Rocq's primitive floats. The clock belongs
    to the surroundings: what a reading returns and how long a sleep or a
    call takes is theirs to say. The caller's list is taken by value, since
    line 97 copies it. *)

(** [int(x)]: the float cut off towards zero; Python raises [ValueError]
    for a NaN and [OverflowError] for an infinity. *)
Definition int (x : float) : Z + exn :=
  match Prim2SF x with
  | S754_zero _ => inl 0
  | S754_finite negative m e =>
      let magnitude :=
        if 0 <=? e then Z.shiftl (Z.pos m) e else Z.shiftr (Z.pos m) (- e) in
      inl (if negative then - magnitude else magnitude)
  | S754_infinity _ => inr (OverflowError "cannot convert float infinity to integer")
  | S754_nan => inr (ValueError "cannot convert float NaN to integer")
  end.

(** The literals [.1] and [.5] of lines 111 and 112. *)
Definition tenth : float := 0.1.
Definition half : float := 0.5.

(** What the waiter does to its surroundings, step by step. *)
Inductive event : Type :=
| EvClock (t : float)                               (* [time.monotonic()] returned [t] *)
| EvLog (outstanding : nat) (timeout_remaining : Z) (* the status line *)
| EvQuery (h : txhash) (answer : string + tx_data)  (* [getTransaction(h)] and its outcome *)
| EvSleep (d : float).                              (* [time.sleep(d)] *)

Section Model.

(** The surroundings: a state machine that answers a reading of the clock,
    lets a sleep pass, and answers a query with an exception of the RPC
    layer or with the transaction data. *)
Variable Env : Type.
Variable read_clock : Env -> float * Env.
Variable pass_time : Env -> float -> Env.
Variable getTransaction : Env -> txhash -> (string + tx_data) * Env.

Record World : Type := mkWorld {
  env : Env;
  trace : list event                    (* newest event first *)
}.

(** How a run ends: it returns, it raises, or the fuel of the model is
    used up, the loop being still under way. *)
Inductive result (A : Type) : Type :=
| Ok (a : A) (w : World)
| Raise (e : exn) (w : World)
| OutOfFuel (w : World).
Arguments Ok {A} a w.
Arguments Raise {A} e w.
Arguments OutOfFuel {A} w.

Definition M (A : Type) : Type := World -> result A.

Definition ret {A} (a : A) : M A := fun w => Ok a w.
Definition raise {A} (e : exn) : M A := fun w => Raise e w.
Definition bind {A B} (m : M A) (k : A -> M B) : M B :=
  fun w => match m w with
           | Ok a w' => k a w'
           | Raise e w' => Raise e w'
           | OutOfFuel w' => OutOfFuel w'
           end.

Notation "x <- m ;; k" := (bind m (fun x => k))
  (at level 100, m at next level, right associativity).
Notation "m ;;; k" := (bind m (fun _ => k))
  (at level 100, right associativity).

(** [time.monotonic()] *)
Definition monotonic : M float :=
  fun w => let '(t, e) := read_clock (env w) in
           Ok t (mkWorld e (EvClock t :: trace w)).

(** [time.sleep(d)] *)
Definition sleep (d : float) : M unit :=
  fun w => Ok tt (mkWorld (pass_time (env w) d) (EvSleep d :: trace w)).

(** [log.debug("Waiting for tx confirmations", outstanding=..., timeout_remaining=...)] *)
Definition log_debug (outstanding : nat) (timeout_remaining : Z) : M unit :=
  fun w => Ok tt (mkWorld (env w) (EvLog outstanding timeout_remaining :: trace w)).

(** [client.web3.eth.getTransaction(txhash)] *)
Definition get_transaction (h : txhash) : M tx_data :=
  fun w => let '(answer, e) := getTransaction (env w) h in
           let w' := mkWorld e (EvQuery h answer :: trace w) in
           match answer with
           | inl err => Raise (RpcError err) w'
           | inr tx => Ok tx w'
           end.

(** [int(remaining_timeout)] *)
Definition whole (x : float) : M Z :=
  match int x with
  | inl z => ret z
  | inr e => raise e
  end.

(** [txhashes.remove(txhash)] *)
Definition list_remove (x : txhash) (xs : list txhash) : M (list txhash) :=
  match remove_first x xs with
  | Some xs' => ret xs'
  | None => raise (ValueError "list.remove(x): x not in list")
  end.

(** Lines 107-111: one pass over a snapshot of the outstanding hashes;
    [txhashes] is the list the loop works on, as the pass leaves it. *)
Fixpoint poll_all (snapshot txhashes : list txhash) : M (list txhash) :=
  match snapshot with
  | [] => ret txhashes
  | txhash :: rest =>
      tx <- get_transaction txhash ;;
      txhashes' <- (if included tx then list_remove txhash txhashes
                    else ret txhashes) ;;
      sleep tenth ;;;
      poll_all rest txhashes'
  end.

(** Lines 98-112: the [while] loop; each unit of fuel pays for one
    evaluation of the loop condition, and the list that is left is
    returned. [outstanding] starts as [False], which compares equal to 0.
    The test of line 100 computes [int(remaining_timeout)] only if the
    count is the one last logged, and the call of line 102 computes it
    again; both give the same number or raise the same exception, so it is
    computed once here. *)
Fixpoint wait_loop (fuel : nat) (start timeout : float) (txhashes : list txhash)
    (outstanding : nat) : M (list txhash) :=
  match fuel with
  | O => fun w => OutOfFuel w
  | S fuel' =>
      go <- (match txhashes with
             | [] => ret false
             | _ => t <- monotonic ;; ret (t - start <? timeout)%float
             end) ;;
      if go : bool then
        t <- monotonic ;;
        let remaining_timeout := (timeout - (t - start))%float in
        timeout_remaining <- whole remaining_timeout ;;
        outstanding' <-
          (if negb (Nat.eqb outstanding (length txhashes))
              || (timeout_remaining mod 10 =? 0)
           then log_debug (length txhashes) timeout_remaining ;;;
                ret (length txhashes)
           else ret outstanding) ;;
        txhashes' <- poll_all txhashes txhashes ;;
        sleep half ;;;
        wait_loop fuel' start timeout txhashes' outstanding'
      else ret txhashes
  end.

(** [wait_for_txs(client, txhashes, timeout)]. An integer timeout, as the
    default 180 is, takes part in lines 98 and 99 as the float of the same
    value. *)
Definition wait_for_txs (fuel : nat) (txhashes : list txhash) (timeout : float)
    : M unit :=
  start <- monotonic ;;
  txhashes <- wait_loop fuel start timeout txhashes 0%nat ;;
  if negb (Nat.eqb (length txhashes) 0)
  then raise (ScenarioTxError (timeout_message txhashes))
  else ret tt.

(** The world a run ends in. *)
Definition final {A} (r : result A) : World :=
  match r with
  | Ok _ w | Raise _ w | OutOfFuel w => w
  end.

(** The events [evs], oldest first, are what the surroundings give from the
    state [e] on, and they leave them in the state [e']: each reading is
    the clock's, each answer is the client's to that query, each sleep is
    passed on to the surroundings, and a status line does not touch
    them. *)
Fixpoint replays (e : Env) (evs : list event) (e' : Env) : Prop :=
  match evs with
  | [] => e' = e
  | EvClock t :: rest =>
      (read_clock e).1 = t /\ replays (read_clock e).2 rest e'
  | EvLog _ _ :: rest => replays e rest e'
  | EvQuery h answer :: rest =>
      (getTransaction e h).1 = answer /\ replays (getTransaction e h).2 rest e'
  | EvSleep d :: rest => replays (pass_time e d) rest e'
  end.

(** From the world [w] to the world [w'] the events [evs], oldest first,
    have been added to the trace, and they are what the surroundings
    gave. *)
Definition run_of (w : World) (evs : list event) (w' : World) : Prop :=
  trace w' = rev evs ++ trace w /\ replays (env w) evs (env w').

End Model.

Arguments Ok {Env A} a w.
Arguments Raise {Env A} e w.
Arguments OutOfFuel {Env A} w.
Arguments env {Env} w.
Arguments trace {Env} w.
Arguments mkWorld {Env} env trace.
Arguments final {Env A} r.

(** *** Vocabulary of the specification *)

(** What the surroundings gave during one pass of the loop: the reading
    that was tested against the deadline, the reading the remaining time
    was computed from, and the answers to the polls. *)
Record pass : Type := mkPass {
  tested : float;
  reading : float;
  answers : list tx_data
}.

(** The test of line 98 on the reading [t]. *)
Definition within (start timeout t : float) : bool :=
  (t - start <? timeout)%float.

(** [int(remaining_timeout)] of lines 99 to 104 on the reading [t]. *)
Definition seconds_left (start timeout t : float) : Z + exn :=
  int (timeout - (t - start))%float.

(** The test of line 100: the count differs from the one last logged, or
    the whole seconds left are a multiple of ten. *)
Definition due (last : nat) (pending : list txhash) (r : Z) : bool :=
  negb (Nat.eqb last (length pending)) || (r mod 10 =? 0).

(** The polls of a pass, oldest first: each identifier is asked about once,
    in the order of the list, and a sleep of a tenth of a second follows
    each answer. *)
Fixpoint poll_events (pending : list txhash) (given : list tx_data) : list event :=
  match pending, given with
  | h :: pending', tx :: given' =>
      EvQuery h (inr tx) :: EvSleep tenth :: poll_events pending' given'
  | _, _ => []
  end.

(** The events of the passes [ps], oldest first, on the list [pending]
    with [last] the count last logged: each pass is the two readings, the
    status line if it is due, the polls, and the sleep of half a second. *)
Fixpoint events_of_passes (start timeout : float) (pending : list txhash)
    (last : nat) (ps : list pass) : list event :=
  match ps with
  | [] => []
  | p :: ps' =>
      match seconds_left start timeout (reading p) with
      | inl r =>
          [EvClock (tested p); EvClock (reading p)]
          ++ (if due last pending r then [EvLog (length pending) r] else [])
          ++ poll_events pending (answers p)
          ++ [EvSleep half]
          ++ events_of_passes start timeout (survivors pending (answers p))
               (if due last pending r then length pending else last) ps'
      | inr _ => []
      end
  end.

(** Each pass began with something outstanding and a reading within the
    timeout, could compute the whole seconds left, and got one answer for
    each outstanding identifier. *)
Fixpoint passes_fit (start timeout : float) (pending : list txhash)
    (ps : list pass) : Prop :=
  match ps with
  | [] => True
  | p :: ps' =>
      pending <> []
      /\ within start timeout (tested p) = true
      /\ (exists r, seconds_left start timeout (reading p) = inl r)
      /\ length (answers p) = length pending
      /\ passes_fit start timeout (survivors pending (answers p)) ps'
  end.

(** What is outstanding after the passes [ps]. *)
Fixpoint left_after (pending : list txhash) (ps : list pass) : list txhash :=
  match ps with
  | [] => pending
  | p :: ps' => left_after (survivors pending (answers p)) ps'
  end.

(** The status lines among the events [evs], oldest first, each with the
    clock reading before it. *)
Fixpoint status_lines (at_clock : float) (evs : list event)
    : list (float * nat * Z) :=
  match evs with
  | [] => []
  | EvClock t :: rest => status_lines t rest
  | EvLog n r :: rest => (at_clock, n, r) :: status_lines at_clock rest
  | _ :: rest => status_lines at_clock rest
  end.

(** The sleeps asked for between two consecutive queries of [evs]. *)
Fixpoint sleeps_between_polls (since_poll : option (list float))
    (evs : list event) : list (list float) :=
  match evs with
  | [] => []
  | EvQuery _ _ :: rest =>
      match since_poll with
      | Some ds => rev ds :: sleeps_between_polls (Some []) rest
      | None => sleeps_between_polls (Some []) rest
      end
  | EvSleep d :: rest =>
      sleeps_between_polls (option_map (cons d) since_poll) rest
  | _ :: rest => sleeps_between_polls since_poll rest
  end.

(** What the waiter may ask for between two consecutive polls: a sleep of a
    tenth of a second, and after it, where a new pass begins in between,
    one of half a second. *)
Definition short_rest (ds : list float) : Prop :=
  ds = [tenth] \/ ds = [tenth; half].

(** *** The surroundings of the examples *)

(** A clock that stands still except while the waiter sleeps, when it
    advances by the time asked for, in binary64 arithmetic; and a client
    that finds no transaction in a block and takes no time. The state is
    the clock. *)
Definition ticking_clock (clock : float) : float * float := (clock, clock).
Definition ticking_sleep (clock d : float) : float := (clock + d)%float.
Definition nothing_included (clock : float) (h : txhash)
    : (string + tx_data) * float :=
  (inr (TxFound None), clock).

(** Sixteen identifiers. *)
Definition sixteen : list txhash := take 16 twenty.

(** A call on the ticking clock, which reads 0 at the start, with the
    client that includes nothing. *)
Definition wait_on_ticking_clock (fuel : nat) (txhashes : list txhash)
    (timeout : float) : result float unit :=
  wait_for_txs float ticking_clock ticking_sleep nothing_included fuel
    txhashes timeout (mkWorld 0%float []).

End WaiterTiming.

(* ===================================================================== *)
(** * Facts about FrozenDict *)
(* ===================================================================== *)

Module FrozenDictFacts.
Import FrozenDict.

Section Facts.

Context {K V : Type} `{EqDecision K}.
Variable hash : K * V -> option Z.

Abbreviation frozen := (FrozenDict.t K V).
Abbreviation cache_ok := (FrozenDict.cache_ok hash).

Lemma xor_items_perm (xs ys : list (K * V)) :
  Permutation xs ys -> forall h, xor_items hash xs h = xor_items hash ys h.
Proof.
  induction 1 as [|x xs ys _ IH|x y xs|xs ys zs _ IH1 _ IH2]; intros h.
  - reflexivity.
  - simpl. destruct (hash x); [apply IH|reflexivity].
  - simpl. destruct (hash x) as [a|], (hash y) as [b|]; try reflexivity.
    f_equal. rewrite !Z.lxor_assoc. f_equal. apply Z.lxor_comm.
  - now rewrite IH1.
Qed.

Lemma perform_items (self : frozen) (c : call) :
  overridden c = true -> items (perform hash self c).2 = items self.
Proof.
  destruct c; try reflexivity; try discriminate. intros _.
  unfold perform, __hash__.
  destruct (_hash self); [reflexivity|].
  now destruct (xor_items hash (items self) 0).
Qed.

Lemma perform_all_items (cs : list call) :
  Forall (fun c => overridden c = true) cs ->
  forall self : frozen, items (perform_all hash self cs) = items self.
Proof.
  induction 1 as [|c cs Hc _ IH]; intros self; [reflexivity|].
  unfold perform_all in *. simpl. now rewrite IH, perform_items.
Qed.

Lemma perform_cache_ok (self : frozen) (c : call) :
  overridden c = true -> cache_ok self -> cache_ok (perform hash self c).2.
Proof.
  intros Hc Hok. destruct c; try exact Hok; try discriminate.
  unfold perform, __hash__.
  destruct (_hash self) eqn:Hcache; [exact Hok|].
  destruct (xor_items hash (items self) 0) eqn:Hx; [|exact Hok].
  intros h [= <-]. exact Hx.
Qed.

Lemma perform_all_cache_ok (cs : list call) :
  Forall (fun c => overridden c = true) cs ->
  forall self : frozen, cache_ok self -> cache_ok (perform_all hash self cs).
Proof.
  induction 1 as [|c cs Hc _ IH]; intros self Hok; [exact Hok|].
  unfold perform_all in *. simpl. apply IH. now apply perform_cache_ok.
Qed.

Lemma hash_of_cache_ok (self : frozen) :
  cache_ok self -> (__hash__ hash self).1 = xor_items hash (items self) 0.
Proof.
  intros Hok. unfold __hash__.
  destruct (_hash self) as [h|] eqn:Hc.
  - simpl. symmetry. now apply Hok.
  - now destruct (xor_items hash (items self) 0).
Qed.

(** What the methods the class defines do. Each of [__setitem__],
    [__delitem__], [update] and [clear] raises [TypeError] and leaves the
    instance as it was; as long as only these and [__hash__] are called, the
    items are those of the construction, two instances whose items are the
    same up to order hash alike, and the hash of an instance does not
    change from one call to the next. *)
Lemma overridden_methods_raise_and_keep_the_hash (pairs1 pairs2 : list (K * V))
    (cs1 cs2 : list call) :
  Forall (fun c => overridden c = true) cs1 ->
  Forall (fun c => overridden c = true) cs2 ->
  Permutation (dict_of pairs1) (dict_of pairs2) ->
  let d1 := perform_all hash (__init__ pairs1) cs1 in
  let d2 := perform_all hash (__init__ pairs2) cs2 in
  (forall k v, __setitem__ d1 k v = (inr (TypeError "FrozenDict is immutable"), d1))
  /\ (forall k, __delitem__ d1 k = (inr (TypeError "FrozenDict is immutable"), d1))
  /\ (forall ps, update d1 ps = (inr (TypeError "FrozenDict is immutable"), d1))
  /\ clear d1 = (inr (TypeError "FrozenDict is immutable"), d1)
  /\ items d1 = dict_of pairs1
  /\ (__hash__ hash d1).1 = (__hash__ hash d2).1
  /\ (__hash__ hash (__hash__ hash d1).2).1 = (__hash__ hash d1).1.
Proof.
  intros Hcs1 Hcs2 Hperm d1 d2.
  assert (Hinit : forall ps : list (K * V), cache_ok (__init__ ps))
    by (intros ps h [=]).
  assert (Hok1 : cache_ok d1) by (apply perform_all_cache_ok; [exact Hcs1|apply Hinit]).
  assert (Hok2 : cache_ok d2) by (apply perform_all_cache_ok; [exact Hcs2|apply Hinit]).
  assert (Hit1 : items d1 = dict_of pairs1) by now apply perform_all_items.
  assert (Hit2 : items d2 = dict_of pairs2) by now apply perform_all_items.
  repeat (split; [reflexivity || assumption|]).
  split.
  - rewrite !hash_of_cache_ok by assumption.
    rewrite Hit1, Hit2. now apply xor_items_perm.
  - pose proof (perform_cache_ok d1 Hash eq_refl Hok1) as Hok'.
    pose proof (perform_items d1 Hash eq_refl) as Hit'.
    assert (Hsnd : (perform hash d1 Hash).2 = (__hash__ hash d1).2).
    { unfold perform. now destruct (__hash__ hash d1) as [[h|e] s]. }
    rewrite Hsnd in Hok', Hit'.
    rewrite !hash_of_cache_ok by assumption. now rewrite Hit'.
Qed.

(** [pop] on a key that is there does not raise: it returns the value and
    takes the item out of the storage, and the cached hash stays as it
    was. *)
Lemma pop_takes_the_item_out (self : frozen) (k : K) (v : V) (default : option V) :
  dict_get k (items self) = Some v ->
  pop self k default = (inl v, mk (dict_del k (items self)) (_hash self)).
Proof. intros Hget. unfold pop. now rewrite Hget. Qed.

End Facts.

(** C8, where the code departs from it. [pop], [popitem] and [setdefault]
    are inherited from [dict] and not overridden. On the instance built
    from [{1: 10, 2: 25}] and hashed once, [pop(1)] raises nothing: it
    returns 10 and leaves the items [{2: 25}]; the hash of the instance is
    still the one cached for both items, 126, whereas a new instance with
    the items [{2: 25}] hashes to 87. [popitem()] takes the item [(2, 25)]
    out, and [setdefault(3, 30)] puts a new item in. *)
Theorem FrozenDict_inherited_methods_mutate :
  let d := (__hash__ pair_hash (__init__ ab)).2 in
  (__hash__ pair_hash (__init__ ab)).1 = inl 126
  /\ perform pair_hash d (Pop 1%nat None)
     = (inl (Value 10%nat), mk [(2, 25)%nat] (Some 126))
  /\ (__hash__ pair_hash (perform pair_hash d (Pop 1%nat None)).2).1 = inl 126
  /\ (__hash__ pair_hash (__init__ [(2, 25)%nat])).1 = inl 87
  /\ perform pair_hash d PopItem
     = (inl (Item (2, 25)%nat), mk [(1, 10)%nat] (Some 126))
  /\ perform pair_hash d (SetDefault 3%nat 30%nat)
     = (inl (Value 30%nat), mk abc (Some 126)).
Proof. cbn zeta. repeat split; vm_compute; reflexivity. Qed.

(** Two instances built from the same items in different orders, after a
    few failed mutations. *)
Lemma overridden_methods_raise_and_keep_the_hash_example :
  let d1 := perform_all pair_hash (__init__ abc) [SetItem 1%nat 99%nat; Hash; Clear] in
  let d2 := perform_all pair_hash (__init__ cab) [DelItem 2%nat] in
  items d1 = abc
  /\ (__hash__ pair_hash d1).1 = (__hash__ pair_hash d2).1
  /\ (__hash__ pair_hash d1).1 = inl 5.
Proof.
  pose proof (overridden_methods_raise_and_keep_the_hash pair_hash abc cab
                [SetItem 1%nat 99%nat; Hash; Clear] [DelItem 2%nat]) as Hthm.
  assert (Hperm : Permutation (dict_of abc) (dict_of cab)).
  { vm_compute. symmetry.
    apply (Permutation_cons_append [(1, 10); (2, 25)]%nat (3, 30)%nat). }
  destruct (Hthm ltac:(repeat constructor) ltac:(repeat constructor) Hperm)
    as (_ & _ & _ & _ & Hitems & Heq & _).
  split; [exact Hitems|]. split; [exact Heq|]. vm_compute. reflexivity.
Defined.

Section Unhashable.

Context {K V : Type} `{EqDecision K}.
Variable hash : K * V -> option Z.

Lemma xor_items_raises (its : list (K * V)) :
  forall h,
    (exists kv, kv ∈ its /\ hash kv = None)
    <-> xor_items hash its h = inr (TypeError "unhashable type").
Proof.
  induction its as [|kv its IH]; intros h; simpl.
  - split; [intros (kv & Hin & _); inversion Hin|discriminate].
  - destruct (hash kv) as [x|] eqn:Hkv.
    + rewrite <- IH. split.
      * intros (kv' & Hin & Hnone).
        apply elem_of_cons in Hin as [->|Hin]; [congruence|eauto].
      * intros (kv' & Hin & Hnone). exists kv'. split; [now right|exact Hnone].
    + split; [reflexivity|]. intros _. exists kv. split; [left|exact Hkv].
Qed.

Lemma xor_items_outcome (its : list (K * V)) :
  forall h, (exists x, xor_items hash its h = inl x)
            \/ xor_items hash its h = inr (TypeError "unhashable type").
Proof.
  induction its as [|kv its IH]; intros h; simpl; [eauto|].
  destruct (hash kv); [apply IH|now right].
Qed.

(** X5. Hashing a new instance raises [TypeError] exactly when one of its
    items is unhashable, and then caches nothing, so that hashing it again
    raises again; when every item is hashable the hash is returned and
    cached. *)
Theorem hash_raises_iff_unhashable (pairs : list (K * V)) :
  let d := __init__ pairs in
  ((exists kv, kv ∈ dict_of pairs /\ hash kv = None)
   <-> (__hash__ hash d).1 = inr (TypeError "unhashable type"))
  /\ ((exists kv, kv ∈ dict_of pairs /\ hash kv = None) ->
      (__hash__ hash d).2 = d
      /\ (__hash__ hash (__hash__ hash d).2).1 = inr (TypeError "unhashable type"))
  /\ ((forall kv, kv ∈ dict_of pairs -> hash kv <> None) ->
      exists h, __hash__ hash d = (inl h, mk (dict_of pairs) (Some h))).
Proof.
  cbn zeta. unfold __hash__, __init__. cbn [_hash items].
  pose proof (xor_items_raises (dict_of pairs) 0) as Hiff.
  destruct (xor_items_outcome (dict_of pairs) 0) as [(x & Hx)|He].
  - assert (Hnone : ~ exists kv, kv ∈ dict_of pairs /\ hash kv = None)
      by (intros Hex; apply Hiff in Hex; congruence).
    rewrite Hx. cbn [fst snd]. split; [|split].
    + split; [intros Hex; now destruct Hnone|discriminate].
    + intros Hex. now destruct Hnone.
    + intros _. now exists x.
  - destruct (proj2 Hiff He) as (kv & Hin & Hnone).
    rewrite He. cbn [fst snd _hash items]. rewrite He. cbn [fst].
    split; [|split].
    + split; [reflexivity|eauto].
    + intros _. split; reflexivity.
    + intros Hall. now destruct (Hall kv Hin).
Qed.

End Unhashable.

Lemma hash_raises_iff_unhashable_witness :
  (__hash__ hash_but_zero (__init__ [(1, 10); (2, 0)]%nat)).2
  = __init__ [(1, 10); (2, 0)]%nat
  /\ (exists h, __hash__ hash_but_zero (__init__ abc) = (inl h, mk (dict_of abc) (Some h))).
Proof.
  destruct (hash_raises_iff_unhashable hash_but_zero [(1, 10); (2, 0)]%nat)
    as (_ & Hraise & _).
  destruct (hash_raises_iff_unhashable hash_but_zero abc) as (_ & _ & Hok).
  split.
  - apply Hraise. exists (2, 0)%nat. split; [|reflexivity].
    vm_compute. right. left.
  - apply Hok. intros kv Hin. vm_compute in Hin.
    repeat (apply elem_of_cons in Hin as [->|Hin]; [discriminate|]).
    inversion Hin.
Defined.

End FrozenDictFacts.

(* ===================================================================== *)
(** * Facts about LogBuffer *)
(* ===================================================================== *)

Module LogBufferFacts.
Import LogBuffer.

Lemma deque_of_bounded (xs : list string) (n : nat) : bounded (deque_of xs n).
Proof. unfold bounded, deque_of. simpl. rewrite length_drop. lia. Qed.

Lemma appendleft_bounded (x : string) (d : deque) : bounded (appendleft x d).
Proof. unfold bounded, appendleft. simpl. rewrite length_take. lia. Qed.

Lemma appendleft_maxlen (x : string) (d : deque) : maxlen (appendleft x d) = maxlen d.
Proof. reflexivity. Qed.

Lemma extendleft_maxlen (xs : list string) :
  forall d, maxlen (extendleft xs d) = maxlen d.
Proof.
  induction xs as [|x xs IH]; intros d; [reflexivity|].
  unfold extendleft in *. simpl. now rewrite IH.
Qed.

Lemma extendleft_bounded (xs : list string) :
  forall d, bounded d -> bounded (extendleft xs d).
Proof.
  induction xs as [|x xs IH]; intros d Hd; [exact Hd|].
  unfold extendleft in *. simpl. apply IH, appendleft_bounded.
Qed.

Lemma take_app_take (front l : list string) :
  forall m k : nat, (m <= k)%nat ->
                    take m (front ++ take k l) = take m (front ++ l).
Proof.
  induction front as [|y front IH]; intros m k Hmk.
  - simpl. rewrite take_take. f_equal. lia.
  - destruct m as [|m]; [reflexivity|]. simpl. f_equal. apply IH. lia.
Qed.

(** What [extendleft] leaves: the new elements in reverse order in front,
    cut at the bound. *)
Lemma extendleft_elems (xs : list string) :
  forall d, bounded d ->
            elems (extendleft xs d) = take (maxlen d) (rev xs ++ elems d).
Proof.
  induction xs as [|x xs IH]; intros d Hd.
  - simpl. symmetry. now apply take_ge.
  - unfold extendleft in *. simpl fold_left.
    rewrite IH by apply appendleft_bounded.
    rewrite appendleft_maxlen. unfold appendleft at 1. cbn [elems rev].
    rewrite <- app_assoc. cbn [app].
    now apply take_app_take.
Qed.

Lemma write_bounded (self : t) (content : string) :
  bounded (buffer self) ->
  bounded (buffer (write self content).2)
  /\ maxlen (buffer (write self content).2) = maxlen (buffer self).
Proof.
  intros Hb. unfold write.
  destruct (elems (buffer self)) as [|newest older] eqn:He; [now split|].
  destruct (splitlines content) as [|first others]; [now split|].
  destruct (decide (first :: others = [""])); simpl.
  - split; [apply appendleft_bounded|reflexivity].
  - split; [|now rewrite extendleft_maxlen].
    apply extendleft_bounded. unfold bounded in *. simpl.
    rewrite He in Hb. exact Hb.
Qed.

Lemma writes_bounded (contents : list string) :
  forall self, bounded (buffer self) ->
               bounded (buffer (writes self contents))
               /\ maxlen (buffer (writes self contents)) = maxlen (buffer self).
Proof.
  induction contents as [|c cs IH]; intros self Hb; [now split|].
  unfold writes in *. simpl.
  destruct (write_bounded self c Hb) as [Hb' Hm'].
  destruct (IH _ Hb') as [Hb'' Hm'']. split; [exact Hb''|congruence].
Qed.

(** C9. After any sequence of writes to a buffer of capacity [N] the deque
    still has bound [N] and holds at most [N] lines (1000 by default). A
    write on what is then in the buffer joins the first line of the content
    to the newest line and puts the following lines in front of it, newest
    first, keeping the first [N]; a bare newline opens an empty newest line;
    with nothing to join, it raises [IndexError] and changes nothing. *)
Theorem LogBuffer_never_exceeds_capacity (N : nat) (contents : list string) :
  let self := writes (__init__ N) contents in
  maxlen (buffer self) = N
  /\ (length (elems (buffer self)) <= N)%nat
  /\ (length (elems (buffer (writes (__init__ default_capacity) contents)))
      <= 1000)%nat
  /\ forall content,
       write self content
       = match elems (buffer self), splitlines content with
         | newest :: older, first :: others =>
             let joined := String.append newest first in
             (inl tt,
              mk (mkDeque N
                    (take N (if decide (first :: others = [""])
                             then "" :: joined :: older
                             else rev others ++ joined :: older))))
         | _, _ => (inr IndexError, self)
         end.
Proof.
  cbn zeta.
  assert (Hinit : forall n, bounded (buffer (__init__ n)))
    by (intros n; apply deque_of_bounded).
  destruct (writes_bounded contents (__init__ N) (Hinit N)) as [Hb Hm].
  destruct (writes_bounded contents (__init__ default_capacity)
              (Hinit default_capacity)) as [Hb' Hm'].
  simpl in Hm, Hm'. unfold bounded in Hb, Hb'. rewrite Hm in Hb. rewrite Hm' in Hb'.
  split; [exact Hm|]. split; [exact Hb|]. split; [exact Hb'|].
  intros content. unfold write.
  destruct (elems (buffer (writes (__init__ N) contents)))
    as [|newest older] eqn:He; [reflexivity|].
  destruct (splitlines content) as [|first others]; [reflexivity|].
  rewrite Hm. cbn zeta.
  destruct (decide (first :: others = [""])); [reflexivity|].
  f_equal. f_equal.
  assert (Hbd : bounded (mkDeque N (String.append newest first :: older)))
    by exact Hb.
  pose proof (extendleft_elems others _ Hbd) as Hel.
  pose proof (extendleft_maxlen others
                (mkDeque N (String.append newest first :: older))) as Hml.
  destruct (extendleft others (mkDeque N (String.append newest first :: older)))
    as [m e]. simpl in Hel, Hml. now subst.
Qed.

(** *** Lines in and lines out *)

Lemma append_cons (c : ascii) (s t : string) :
  String.append (String c s) t = String c (String.append s t).
Proof. reflexivity. Qed.

Lemma append_empty_r (s : string) : String.append s "" = s.
Proof.
  induction s as [|c s IH]; [reflexivity|]. now rewrite append_cons, IH.
Qed.

Lemma append_assoc (a b c : string) :
  String.append (String.append a b) c = String.append a (String.append b c).
Proof.
  induction a as [|x a IH]; [reflexivity|]. now rewrite !append_cons, IH.
Qed.

Lemma boundary_free_append (a b : string) :
  boundary_free a = true -> boundary_free b = true ->
  boundary_free (String.append a b) = true.
Proof.
  induction a as [|x a IH]; intros Ha Hb; [exact Hb|].
  rewrite append_cons. cbn [boundary_free] in *.
  apply andb_true_iff in Ha as [Hx Ha].
  now rewrite Hx, IH.
Qed.

(** A text without line boundary is one line, or none when it is empty. *)
Lemma splitlines_from_boundary_free (s : string) :
  boundary_free s = true ->
  forall line,
    splitlines_from line s
    = match String.append line s with
      | EmptyString => []
      | whole => [whole]
      end.
Proof.
  induction s as [|c s IH]; intros Hs line.
  - cbn [splitlines_from]. rewrite append_empty_r. now destruct line.
  - cbn [boundary_free] in Hs. apply andb_true_iff in Hs as [Hc Hs].
    apply negb_true_iff in Hc. cbn [splitlines_from]. rewrite Hc.
    rewrite (IH Hs), append_assoc. reflexivity.
Qed.

Lemma splitlines_boundary_free (s : string) :
  boundary_free s = true ->
  splitlines s = match s with EmptyString => [] | _ => [s] end.
Proof.
  intros Hs. unfold splitlines.
  rewrite splitlines_from_boundary_free by assumption. now destruct s.
Qed.

(** The same text with a line feed after it is that one line, empty or not. *)
Lemma splitlines_from_trailing_newline (s : string) :
  boundary_free s = true ->
  forall line,
    splitlines_from line (String.append s newline) = [String.append line s].
Proof.
  induction s as [|c s IH]; intros Hs line.
  - now rewrite append_empty_r.
  - cbn [boundary_free] in Hs. apply andb_true_iff in Hs as [Hc Hs].
    apply negb_true_iff in Hc. rewrite append_cons. cbn [splitlines_from].
    rewrite Hc, (IH Hs), append_assoc. reflexivity.
Qed.

(** A message without line boundary goes onto the newest line. *)
Lemma write_boundary_free (self : t) (s : string) :
  boundary_free s = true ->
  (write self s).2
  = match elems (buffer self) with
    | [] => self
    | newest :: older =>
        mk (mkDeque (maxlen (buffer self)) (String.append newest s :: older))
    end.
Proof.
  intros Hs. unfold write. rewrite (splitlines_boundary_free s Hs).
  destruct self as [[n els]]. simpl.
  destruct els as [|newest older]; [reflexivity|].
  destruct s as [|c s]; [now rewrite append_empty_r|].
  destruct (decide ([String c s] = [""])) as [Heq|_]; [discriminate|reflexivity].
Qed.

(** The bare newline opens an empty newest line. *)
Lemma write_newline (self : t) :
  (write self newline).2
  = match elems (buffer self) with
    | [] => self
    | newest :: older =>
        mk (mkDeque (maxlen (buffer self))
              (take (maxlen (buffer self)) ("" :: newest :: older)))
    end.
Proof.
  unfold write. destruct self as [[n els]]. simpl.
  destruct els as [|newest older]; [reflexivity|].
  change (splitlines newline) with [""]. simpl.
  unfold appendleft. simpl. now rewrite append_empty_r.
Qed.

Lemma write_lines_elems (N : nat) (msgs : list string) :
  Forall (fun m => boundary_free m = true) msgs ->
  buffer (write_lines (__init__ N) msgs) = mkDeque N (take N ("" :: rev msgs)).
Proof.
  induction msgs as [|m done IH] using rev_ind; intros Hall.
  - unfold write_lines, __init__, deque_of. simpl.
    destruct N as [|[|N]]; reflexivity.
  - apply Forall_app in Hall as [Hdone Hm].
    apply Forall_inv in Hm. specialize (IH Hdone).
    unfold write_lines in *. rewrite fold_left_app. simpl.
    set (self := fold_left _ done (__init__ N)) in *.
    rewrite write_newline, (write_boundary_free self m Hm).
    destruct self as [[n els]]. simpl in IH. injection IH as -> ->.
    rewrite rev_app_distr. cbn [rev app].
    destruct N as [|N]; [reflexivity|].
    cbn [take elems buffer maxlen]. f_equal. f_equal.
    exact (take_app_take [m] (rev done) N N (le_n N)).
Qed.

Lemma rev_take_rev (j : nat) (l : list string) :
  rev (take j (rev l)) = drop (length l - j) l.
Proof. rewrite firstn_rev, rev_involutive. reflexivity. Qed.

(** X1. Messages without line breaks, each handed to [write] and followed by
    a write of the bare newline, fill the buffer newest first under the empty
    line being written; [getlines(1, n + 1)] gives the [n] messages back in
    the order written, less the oldest ones that fell out of a buffer of
    capacity [N]. *)
Theorem write_lines_getlines_round_trip (N : nat) (msgs : list string) :
  Forall (fun m => boundary_free m = true) msgs ->
  let self := write_lines (__init__ N) msgs in
  elems (buffer self) = take N ("" :: rev msgs)
  /\ getlines self 1 (Some (S (length msgs))) = drop (S (length msgs) - N) msgs.
Proof.
  intros Hall self. subst self.
  pose proof (write_lines_elems N msgs Hall) as Hbuf.
  unfold getlines. rewrite Hbuf. cbn [elems]. split; [reflexivity|].
  rewrite take_take.
  destruct N as [|N].
  - rewrite Nat.min_0_r. cbn [take drop rev]. rewrite Nat.sub_0_r.
    symmetry. apply drop_ge. lia.
  - replace (S (length msgs) `min` S N)%nat
      with (S (length msgs `min` N)%nat) by lia.
    cbn [take drop]. rewrite drop_0, rev_take_rev. f_equal. lia.
Qed.

Lemma write_lines_getlines_round_trip_witness :
  let self := write_lines (__init__ 3) ["a"; "b"; "c"] in
  elems (buffer self) = [""; "c"; "b"]
  /\ getlines self 1 (Some 4%nat) = ["b"; "c"].
Proof.
  apply (write_lines_getlines_round_trip 3 ["a"; "b"; "c"]).
  repeat constructor.
Defined.

(** X2. A text without line breaks written in two pieces leaves the buffer
    as the same text written in one piece does. *)
Theorem write_in_pieces (self : t) (s1 s2 : string) :
  boundary_free s1 = true -> boundary_free s2 = true ->
  writes self [s1; s2] = writes self [String.append s1 s2].
Proof.
  intros H1 H2. unfold writes. cbn [fold_left].
  rewrite (write_boundary_free _ (String.append s1 s2))
    by now apply boundary_free_append.
  rewrite (write_boundary_free self s1 H1).
  destruct self as [[n els]]. cbn [buffer elems maxlen].
  destruct els as [|newest older].
  - now rewrite (write_boundary_free _ s2 H2).
  - rewrite (write_boundary_free _ s2 H2). cbn [buffer elems maxlen].
    now rewrite append_assoc.
Qed.

Lemma write_in_pieces_witness :
  writes (__init__ 5) ["Waiting for "; "tx confirmations"]
  = writes (__init__ 5) ["Waiting for tx confirmations"].
Proof.
  apply (write_in_pieces (__init__ 5) "Waiting for " "tx confirmations");
    reflexivity.
Defined.

(** X3. Content that ends with its own line feed does not open a new line:
    a non-empty text without other line breaks, written with a line feed
    after it, does to the buffer exactly what the text alone does, so that
    the next write continues the same line. *)
Theorem write_drops_trailing_newline (self : t) (s : string) :
  boundary_free s = true -> s <> "" ->
  write self (String.append s newline) = write self s.
Proof.
  intros Hs Hne. unfold write, splitlines.
  rewrite (splitlines_from_trailing_newline s Hs).
  rewrite (splitlines_from_boundary_free s Hs).
  destruct s as [|c s]; [contradiction|]. reflexivity.
Qed.

Lemma write_drops_trailing_newline_witness :
  write (__init__ 5) (String.append "Run finished" newline)
  = write (__init__ 5) "Run finished".
Proof.
  apply (write_drops_trailing_newline (__init__ 5) "Run finished");
    [reflexivity|discriminate].
Defined.

(** X4. Windows that touch tile: for [a <= b <= c] with [b] positive, the
    lines of [getlines(b, c)] followed by those of [getlines(a, b)] are the
    lines of [getlines(a, c)]. *)
Theorem getlines_windows_tile (self : t) (a b c : nat) :
  (a <= b)%nat -> (b <= c)%nat -> (0 < b)%nat ->
  getlines self b (Some c) ++ getlines self a (Some b) = getlines self a (Some c).
Proof.
  intros Hab Hbc Hb. unfold getlines.
  destruct b as [|b]; [lia|]. destruct c as [|c]; [lia|].
  rewrite <- rev_app_distr. f_equal.
  set (els := elems (buffer self)).
  rewrite <- (take_drop (S b - a) (drop a (take (S c) els))).
  f_equal.
  - rewrite take_drop_commute, take_take. do 2 f_equal. lia.
  - rewrite drop_drop. f_equal. lia.
Qed.

Lemma getlines_windows_tile_witness :
  let self := write_lines (__init__ 9) ["a"; "b"; "c"; "d"] in
  getlines self 3 (Some 5%nat) ++ getlines self 1 (Some 3%nat)
  = getlines self 1 (Some 5%nat).
Proof.
  apply (getlines_windows_tile (write_lines (__init__ 9) ["a"; "b"; "c"; "d"]) 1 3 5);
    lia.
Defined.

End LogBufferFacts.

(* ===================================================================== *)
(** * Facts about wait_for_txs *)
(* ===================================================================== *)

Module WaiterFacts.
Import Waiter.

Lemma remove_first_middle (h : txhash) (kept rest : list txhash) :
  h ∉ kept -> remove_first h (kept ++ h :: rest) = Some (kept ++ rest).
Proof.
  induction kept as [|k kept IH]; intros Hnot; simpl.
  - now rewrite String.eqb_refl.
  - apply not_elem_of_cons in Hnot as [Hne Hnot].
    destruct (String.eqb_spec h k) as [->|_]; [now destruct Hne|].
    now rewrite IH.
Qed.

Lemma survivors_sublist (pending : list txhash) :
  forall given, sublist (survivors pending given) pending.
Proof.
  induction pending as [|h pending IH]; intros given; [constructor|].
  destruct given as [|tx given]; simpl; [apply sublist_nil_l|].
  destruct (included tx); [apply sublist_cons, IH|apply sublist_skip, IH].
Qed.

Lemma survivors_NoDup (pending : list txhash) (given : list tx_data) :
  NoDup pending -> NoDup (survivors pending given).
Proof.
  intros Hnd. exact (sublist_NoDup _ _ Hnd (survivors_sublist pending given)).
Qed.


Section Facts.

Variable Chain : Type.
Variable getTransaction : Chain -> Z -> txhash -> (string + tx_data) * Chain * N.

Abbreviation World := (World Chain).
Abbreviation poll_all := (poll_all Chain getTransaction).
Abbreviation wait_loop := (wait_loop Chain getTransaction).
Abbreviation wait_for_txs := (wait_for_txs Chain getTransaction).
Abbreviation get_transaction := (get_transaction Chain getTransaction).

(** *** Lists and observations *)

Lemma filter_all {A} (P : A -> Prop) `{!forall x, Decision (P x)} (l : list A) :
  (forall x, x ∈ l -> P x) -> filter P l = l.
Proof.
  induction l as [|a l IH]; intros Hall; [reflexivity|].
  rewrite filter_cons_True by (apply Hall; left).
  f_equal. apply IH. intros x Hx. apply Hall. now right.
Qed.

Lemma remove_first_NoDup (h : txhash) (cur : list txhash) :
  NoDup cur -> h ∈ cur ->
  remove_first h cur = Some (filter (fun x => x <> h) cur).
Proof.
  induction cur as [|y ys IH]; intros Hnd Hin.
  - inversion Hin.
  - apply NoDup_cons in Hnd as [Hy Hys]. simpl.
    destruct (String.eqb_spec h y) as [->|Hne].
    + rewrite filter_cons_False by tauto.
      f_equal. symmetry. apply filter_all.
      intros x Hx ->. contradiction.
    + rewrite filter_cons_True by congruence.
      apply elem_of_cons in Hin as [?|Hin]; [congruence|].
      now rewrite IH.
Qed.


Lemma observed_included_app (a b : list event) (h : txhash) :
  observed_included (a ++ b) h = observed_included a h || observed_included b h.
Proof. unfold observed_included. apply existsb_app. Qed.

Lemma unconfirmed_nil (cur : list txhash) : unconfirmed [] cur = cur.
Proof.
  unfold unconfirmed. apply filter_all. reflexivity.
Qed.

Lemma unconfirmed_app (a b : list event) (cur : list txhash) :
  unconfirmed (a ++ b) cur = unconfirmed a (unconfirmed b cur).
Proof.
  unfold unconfirmed. rewrite list_filter_filter.
  apply list_filter_iff. intros h. rewrite observed_included_app.
  rewrite orb_false_iff. tauto.
Qed.

Lemma unconfirmed_NoDup (evs : list event) (cur : list txhash) :
  NoDup cur -> NoDup (unconfirmed evs cur).
Proof. apply NoDup_filter. Qed.

Lemma unconfirmed_query (t : Z) (h : txhash) (tx : tx_data) (cur : list txhash) :
  unconfirmed [EvQuery t h (inr tx)] cur
  = if included tx then filter (fun x => x <> h) cur else cur.
Proof.
  unfold unconfirmed, observed_included. simpl.
  destruct (included tx).
  - apply list_filter_iff. intros x. rewrite orb_false_r, andb_true_r.
    destruct (String.eqb_spec x h); split; congruence.
  - apply filter_all. intros x _.
    now rewrite andb_false_r.
Qed.

Lemma unconfirmed_skip (ev : event) (evs : list event) (cur : list txhash) :
  (forall t h tx, ev <> EvQuery t h (inr tx)) ->
  unconfirmed (ev :: evs) cur = unconfirmed evs cur.
Proof.
  intros Hev. unfold unconfirmed, observed_included. simpl.
  destruct ev as [| t h [err|tx] |]; try reflexivity.
  now destruct (Hev t h tx).
Qed.


Lemma quiet_app (a b : list event) : quiet a -> quiet b -> quiet (a ++ b).
Proof. apply Forall_app_2. Qed.

(** Lines 109-110: the conditional removal leaves exactly the hashes that
    this answer does not confirm. *)
Lemma remove_if_included (l : loc) (h : txhash) (tx : tx_data) (t : Z)
    (w : World) (cur : list txhash) :
  heap w !! l = Some cur -> NoDup cur -> h ∈ cur ->
  (if included tx then list_remove Chain l h else ret Chain tt) w
  = Ok tt (mkWorld (now w) (chain w)
             (<[l := unconfirmed [EvQuery t h (inr tx)] cur]> (heap w)) (trace w)).
Proof.
  intros Hheap Hcur Hin. rewrite unconfirmed_query.
  destruct (included tx).
  - unfold list_remove, bind, list_get. rewrite Hheap.
    now rewrite remove_first_NoDup.
  - unfold ret. rewrite insert_id by assumption. now destruct w.
Qed.



(** *** The clock *)

Lemma poll_all_clock (l : loc) (snapshot : list txhash) :
  forall w : World,
    match poll_all l snapshot w with
    | Ok _ w' => now w + 100 * Z.of_nat (length snapshot) <= now w'
    | Raise _ _ => True
    | OutOfFuel => False
    end.
Proof.
  induction snapshot as [|h rest IH]; intros w.
  - simpl. lia.
  - cbn [Waiter.poll_all]. unfold bind at 1. unfold Waiter.get_transaction.
    destruct (getTransaction (chain w) (now w) h) as [[[err|tx] c'] d]; [exact I|].
    unfold bind at 1.
    set (w1 := mkWorld _ _ _ _).
    assert (Hrm : match (if included tx then list_remove Chain l h
                         else ret Chain tt) w1 with
                  | Ok _ w2 => now w2 = now w1
                  | Raise _ _ => True
                  | OutOfFuel => False
                  end).
    { destruct (included tx); [|reflexivity].
      unfold list_remove, bind, list_get.
      destruct (heap w1 !! l) as [xs|]; [|exact I].
      now destruct (remove_first h xs). }
    destruct ((if included tx then list_remove Chain l h else ret Chain tt) w1)
      as [[] w2|e w2|]; [|exact I|assumption].
    unfold bind at 1, sleep.
    set (w3 := mkWorld _ _ _ _).
    specialize (IH w3).
    destruct (poll_all l rest w3) as [[] w4|e w4|]; [|exact I|assumption].
    subst w3 w1. cbn [now length] in *. lia.
Qed.

(** One evaluation of the loop condition and, if it holds, one pass. *)
Lemma wait_loop_unfold (fuel : nat) (start timeout : Z) (l : loc)
    (outstanding : nat) (w : World) :
  wait_loop (S fuel) start timeout l outstanding w
  = match heap w !! l with
    | None => Raise DanglingReference w
    | Some xs =>
        if negb (Nat.eqb (length xs) 0) && (now w - start <? timeout)
        then
          let remaining := Z.quot (timeout - (now w - start)) 1000 in
          let logs := negb (Nat.eqb outstanding (length xs))
                      || (remaining mod 10 =? 0) in
          let w1 := if logs then emit Chain (EvLog (now w) (length xs) remaining) w
                    else w in
          match poll_all l xs w1 with
          | Ok _ w2 =>
              wait_loop fuel start timeout l
                (if logs then length xs else outstanding)
                (mkWorld (now w2 + 500) (chain w2) (heap w2)
                         (EvSleep (now w2) 500 :: trace w2))
          | Raise e w2 => Raise e w2
          | OutOfFuel => OutOfFuel
          end
        else Ok tt w
    end.
Proof.
  cbn [Waiter.wait_loop]. unfold bind at 1. unfold list_get at 1.
  destruct (heap w !! l) as [xs|] eqn:Hheap; [|reflexivity].
  unfold bind at 1.
  destruct xs as [|x xs']; [reflexivity|].
  unfold bind at 1, monotonic at 1, ret at 1.
  cbn [length Nat.eqb negb andb].
  destruct (now w - start <? timeout); [|reflexivity].
  unfold bind at 1, monotonic at 1.
  unfold bind at 1.
  destruct (negb (Nat.eqb outstanding (S (length xs')))
            || (Z.quot (timeout - (now w - start)) 1000 mod 10 =? 0)); cbn zeta.
  - unfold bind at 1, log_debug at 1, ret at 1.
    unfold bind at 1, list_get at 1. cbn [emit heap]. rewrite Hheap.
    unfold bind at 1.
    destruct (poll_all l (x :: xs') _) as [[] w2|e w2|]; reflexivity.
  - unfold ret at 1.
    unfold bind at 1, list_get at 1. rewrite Hheap.
    unfold bind at 1.
    destruct (poll_all l (x :: xs') _) as [[] w2|e w2|]; reflexivity.
Qed.


(** The status line of a pass changes neither the heap nor the clock. *)
Lemma pass_head_frame (logs : bool) (n : nat) (r : Z) (w : World) :
  let w1 := if logs then emit Chain (EvLog (now w) n r) w else w in
  exists L, trace w1 = L ++ trace w /\ heap w1 = heap w /\ now w1 = now w
            /\ quiet L /\ (forall cur, unconfirmed L cur = cur).
Proof.
  destruct logs; cbn zeta.
  - exists [EvLog (now w) n r]. repeat split.
    + repeat constructor.
    + intros cur. rewrite unconfirmed_skip by discriminate.
      apply unconfirmed_nil.
  - exists []. repeat split.
    + constructor.
    + apply unconfirmed_nil.
Qed.

Lemma wait_loop_terminates (start timeout : Z) (l : loc) (fuel : nat) :
  forall (w : World) (outstanding : nat),
    timeout - (now w - start) <= 500 * Z.of_nat fuel ->
    wait_loop (S fuel) start timeout l outstanding w <> OutOfFuel.
Proof.
  induction fuel as [|fuel IH]; intros w outstanding Hfuel;
    rewrite wait_loop_unfold; destruct (heap w !! l) as [xs|]; try discriminate.
  - replace (now w - start <? timeout) with false by (symmetry; apply Z.ltb_ge; lia).
    rewrite andb_false_r. discriminate.
  - destruct (negb (Nat.eqb (length xs) 0) && (now w - start <? timeout)) eqn:Hgo;
      [|discriminate].
    apply andb_true_iff in Hgo as [_ Hlt]. apply Z.ltb_lt in Hlt.
    cbn zeta.
    destruct (pass_head_frame
                (negb (Nat.eqb outstanding (length xs))
                 || (Z.quot (timeout - (now w - start)) 1000 mod 10 =? 0))
                (length xs) (Z.quot (timeout - (now w - start)) 1000) w)
      as (L & _ & _ & Hnow & _).
    cbn zeta in Hnow. revert Hnow.
    generalize (if negb (Nat.eqb outstanding (length xs))
                   || (Z.quot (timeout - (now w - start)) 1000 mod 10 =? 0)
                then emit Chain (EvLog (now w) (length xs)
                                   (Z.quot (timeout - (now w - start)) 1000)) w
                else w).
    intros w1 Hnow.
    pose proof (poll_all_clock l xs w1) as Hclock.
    destruct (poll_all l xs w1) as [[] w2|e w2|]; [|discriminate|contradiction].
    apply IH. cbn [now]. lia.
Qed.



(** *** What every run looks like, whatever the list holds *)

Lemma extends_refl (l : loc) (w : World) : extends l w w.
Proof. exists []. repeat split; [constructor|lia]. Qed.

Lemma extends_trans (l : loc) (w1 w2 w3 : World) :
  extends l w1 w2 -> extends l w2 w3 -> extends l w1 w3.
Proof.
  intros (n1 & Ht1 & Hq1 & Hc1 & Hf1) (n2 & Ht2 & Hq2 & Hc2 & Hf2).
  exists (n2 ++ n1). split; [|split; [|split]].
  - now rewrite Ht2, Ht1, app_assoc.
  - now apply quiet_app.
  - lia.
  - intros l' Hl'. now rewrite Hf2, Hf1.
Qed.

Lemma shape_extends {A} (l : loc) (w1 w2 : World) (r : result Chain A) :
  extends l w1 w2 -> shape l w2 r -> shape l w1 r.
Proof.
  intros H12. destruct r as [a w'|e w'|]; simpl; [| |trivial].
  - now apply extends_trans.
  - destruct e; try (now apply extends_trans).
    intros (t & h & w0 & Hext & Htr & Hheap).
    exists t, h, w0. split; [now apply extends_trans with w2|tauto].
Qed.

Lemma shape_bind {A B} (l : loc) (m : M Chain A) (k : A -> M Chain B) (w : World) :
  shape l w (m w) ->
  (forall a w1, m w = Ok a w1 -> shape l w1 (k a w1)) ->
  shape l w (bind Chain m k w).
Proof.
  intros Hm Hk. unfold bind.
  destruct (m w) as [a w1|e w1|] eqn:Hmw; [|exact Hm|exact I].
  apply shape_extends with w1; [exact Hm|]. now apply Hk.
Qed.

Lemma shape_sleep (l : loc) (d : Z) (w : World) : 0 <= d -> shape l w (sleep Chain d w).
Proof.
  intros Hd. exists [EvSleep (now w) d]. simpl.
  repeat split; [repeat constructor|lia].
Qed.

Lemma shape_log_debug (l : loc) (n : nat) (r : Z) (w : World) :
  shape l w (log_debug Chain n r w).
Proof.
  exists [EvLog (now w) n r]. simpl. repeat split; [repeat constructor|lia].
Qed.

Lemma shape_list_get (l l0 : loc) (w : World) : shape l w (list_get Chain l0 w).
Proof.
  unfold list_get. destruct (heap w !! l0); apply extends_refl.
Qed.

Lemma shape_list_remove (l : loc) (h : txhash) (w : World) :
  shape l w (list_remove Chain l h w).
Proof.
  unfold list_remove, bind, list_get.
  destruct (heap w !! l) as [xs|]; [|apply extends_refl].
  destruct (remove_first h xs); [|apply extends_refl].
  exists []. simpl. repeat split; [constructor|lia|].
  intros l' Hl'. now apply lookup_insert_ne.
Qed.

Lemma shape_get_transaction (l : loc) (h : txhash) (w : World) :
  shape l w (get_transaction h w).
Proof.
  unfold Waiter.get_transaction.
  destruct (getTransaction (chain w) (now w) h) as [[[err|tx] c'] d].
  - exists (now w), h, w. split; [apply extends_refl|]. now split.
  - exists [EvQuery (now w) h (inr tx)]. simpl.
    repeat split; [repeat constructor|lia].
Qed.

Lemma shape_poll_all (l : loc) (snapshot : list txhash) :
  forall w : World, shape l w (poll_all l snapshot w).
Proof.
  induction snapshot as [|h rest IH]; intros w; [apply extends_refl|].
  cbn [Waiter.poll_all].
  apply shape_bind; [apply shape_get_transaction|]. intros tx w1 _.
  apply shape_bind.
  { destruct (included tx); [apply shape_list_remove|apply extends_refl]. }
  intros _ w2 _.
  apply shape_bind; [now apply shape_sleep|]. intros _ w3 _.
  apply IH.
Qed.

Lemma shape_wait_loop (start timeout : Z) (l : loc) (fuel : nat) :
  forall (outstanding : nat) (w : World),
    shape l w (wait_loop fuel start timeout l outstanding w).
Proof.
  induction fuel as [|fuel IH]; intros outstanding w; [exact I|].
  cbn [Waiter.wait_loop].
  apply shape_bind; [apply shape_list_get|]. intros xs w1 _.
  apply shape_bind.
  { destruct xs; [apply extends_refl|].
    apply shape_bind; apply extends_refl || (intros; apply extends_refl). }
  intros [|] w2 _; [|apply extends_refl].
  apply shape_bind; [apply extends_refl|]. intros t w3 _.
  apply shape_bind.
  { destruct (_ || _); [|apply extends_refl].
    apply shape_bind; [apply shape_log_debug|]. intros; apply extends_refl. }
  intros outstanding' w4 _.
  apply shape_bind; [apply shape_list_get|]. intros snapshot w5 _.
  apply shape_bind; [apply shape_poll_all|]. intros _ w6 _.
  apply shape_bind; [now apply shape_sleep|]. intros _ w7 _.
  apply IH.
Qed.


(** *** The whole call *)

Lemma events_since_app (w w' : World) (new : list event) :
  trace w' = new ++ trace w -> events_since Chain w w' = new.
Proof.
  intros Htr. unfold events_since. rewrite Htr, length_app.
  replace (length new + length (trace w) - length (trace w))%nat
    with (length new) by lia.
  apply take_app_length.
Qed.

Lemma events_since_refl (w : World) : events_since Chain w w = [].
Proof. apply events_since_app. reflexivity. Qed.

(** The copy made on line 97 is a new object. *)
Lemma fresh_loc_unused (w : World) : heap w !! fresh (dom (heap w)) = None.
Proof. apply not_elem_of_dom, is_fresh. Qed.

Lemma wait_for_txs_shape (fuel : nat) (caller : loc) (timeout : Z) (w : World) :
  shape (fresh (dom (heap w))) w (wait_for_txs fuel caller timeout w).
Proof.
  unfold Waiter.wait_for_txs.
  unfold bind at 1, monotonic at 1.
  unfold bind at 1, list_copy at 1, bind at 1, list_get at 1.
  destruct (heap w !! caller) as [txs|]; [|apply extends_refl].
  set (l := fresh (dom (heap w))).
  set (w0 := mkWorld _ _ _ _).
  apply shape_extends with w0.
  { exists []. subst w0. simpl. repeat split; [constructor|lia|].
    intros l' Hl'. now apply lookup_insert_ne. }
  apply shape_bind; [apply shape_wait_loop|]. intros _ w1 _.
  apply shape_bind; [apply shape_list_get|]. intros xs w2 _.
  destruct (negb _); apply extends_refl.
Qed.

Lemma fuel_for_enough (timeout : Z) (fuel : nat) :
  (fuel_for timeout <= S fuel)%nat -> timeout <= 500 * Z.of_nat fuel.
Proof.
  unfold fuel_for. intros Hfuel.
  assert (Hdiv : timeout < 500 * (timeout / 500 + 1)).
  { pose proof (Z.mul_succ_div_gt timeout 500 ltac:(lia)). lia. }
  destruct (Z.le_gt_cases 0 timeout) as [Hpos|Hneg]; [|lia].
  assert (0 <= timeout / 500) by (apply Z.div_pos; lia).
  assert (Z.of_nat fuel >= timeout / 500 + 1) by lia.
  nia.
Qed.

Lemma wait_for_txs_terminates (fuel : nat) (caller : loc) (timeout : Z) (w : World) :
  (fuel_for timeout <= fuel)%nat ->
  wait_for_txs fuel caller timeout w <> OutOfFuel.
Proof.
  intros Hfuel. unfold Waiter.wait_for_txs.
  unfold bind at 1, monotonic at 1.
  unfold bind at 1, list_copy at 1, bind at 1, list_get at 1.
  destruct (heap w !! caller) as [txs|]; [|discriminate].
  set (w0 := mkWorld _ _ _ _).
  unfold bind at 1.
  destruct fuel as [|fuel]; [unfold fuel_for in Hfuel; lia|].
  pose proof (wait_loop_terminates (now w) timeout (fresh (dom (heap w))) fuel w0 0%nat)
    as Hterm.
  destruct (wait_loop (S fuel) (now w) timeout (fresh (dom (heap w))) 0%nat w0)
    as [[] w1|e w1|]; [|discriminate|].
  - unfold bind, list_get. destruct (heap w1 !! _) as [xs|]; [|discriminate].
    destruct (negb _); discriminate.
  - exfalso. apply Hterm; [|reflexivity].
    subst w0. cbn [now]. apply fuel_for_enough in Hfuel. lia.
Qed.



Lemma shape_final_heap {A} (l : loc) (w : World) (r : result Chain A) :
  shape l w r -> exists w0, extends l w w0 /\ heap (final Chain r w) = heap w0.
Proof.
  destruct r as [a w'|e w'|]; cbn [final shape].
  - eauto.
  - destruct e; eauto. intros (t & h & w0 & Hext & _ & Hh). eauto.
  - intros _. exists w. split; [apply extends_refl|reflexivity].
Qed.

Lemma wait_for_txs_dangling (fuel : nat) (caller : loc) (timeout : Z) (w : World) :
  heap w !! caller = None ->
  wait_for_txs fuel caller timeout w = Raise DanglingReference w.
Proof.
  intros Hc. unfold Waiter.wait_for_txs.
  unfold bind at 1, monotonic at 1.
  unfold bind at 1, list_copy at 1, bind at 1, list_get at 1.
  now rewrite Hc.
Qed.


(** *** What the last pass asked *)







(** *** Transactions included in time *)



Lemma wait_loop_empty (fuel : nat) (start timeout : Z) (l : loc)
    (outstanding : nat) (w : World) :
  heap w !! l = Some [] ->
  wait_loop (S fuel) start timeout l outstanding w = Ok tt w.
Proof. intros Hheap. now rewrite wait_loop_unfold, Hheap. Qed.



(** *** The call works in whole passes *)




(** *** The claims about the waiter *)



(** C3, as the code has it. An exception raised by [getTransaction] is not
    caught: the call ends with that exception right after the failed query,
    which is the last thing it did; nothing is logged and no further poll is
    made. *)
Theorem wait_for_txs_propagates_rpc_failure (fuel : nat) (caller : loc)
    (timeout : Z) (w : World) (t : Z) (h : txhash) (err : string) :
  let r := wait_for_txs fuel caller timeout w in
  EvQuery t h (inl err) ∈ events_since Chain w (final Chain r w) ->
  exists w' earlier,
    r = Raise (RpcError err) w'
    /\ events_since Chain w w' = EvQuery t h (inl err) :: earlier.
Proof.
  intros r Hin.
  pose proof (wait_for_txs_shape fuel caller timeout w) as Hshape. fold r in Hshape.
  assert (Hquiet : forall w', extends (fresh (dom (heap w))) w w' ->
                     ~ EvQuery t h (inl err) ∈ events_since Chain w w').
  { intros w' (new & Htr & Hq & _) Hmem.
    rewrite (events_since_app _ _ _ Htr) in Hmem.
    unfold quiet in Hq. rewrite Forall_forall in Hq.
    specialize (Hq _ Hmem). discriminate. }
  destruct r as [[] w'|e w'|]; cbn [final shape] in *.
  - now destruct (Hquiet w').
  - destruct e; try (now destruct (Hquiet w')).
    destruct Hshape as (t0 & h0 & w0 & (new & Htr0 & Hq & _) & Htr & _).
    rewrite Htr0 in Htr.
    rewrite (events_since_app w w' (EvQuery t0 h0 (inl err0) :: new)) in Hin
      by exact Htr.
    apply elem_of_cons in Hin as [[= -> -> ->]|Hmem].
    + exists w', new. split; [reflexivity|].
      now apply (events_since_app w w' (EvQuery t0 h0 (inl err0) :: new)).
    + unfold quiet in Hq. rewrite Forall_forall in Hq.
      specialize (Hq _ Hmem). discriminate.
  - rewrite events_since_refl in Hin. inversion Hin.
Qed.

(** C5. Whatever the client answers and whatever the list and the timeout
    are, the call ends, by a return or by an exception: the fuel computed from
    the timeout alone is never exhausted, and more fuel changes nothing. *)
Theorem wait_for_txs_always_ends (extra : nat) (caller : loc) (timeout : Z)
    (w : World) :
  exists w',
    wait_for_txs (fuel_for timeout + extra) caller timeout w = Ok tt w'
    \/ exists e, wait_for_txs (fuel_for timeout + extra) caller timeout w = Raise e w'.
Proof.
  pose proof (wait_for_txs_terminates (fuel_for timeout + extra) caller timeout w
                ltac:(lia)) as Hterm.
  destruct (wait_for_txs (fuel_for timeout + extra) caller timeout w)
    as [[] w'|e w'|]; [eauto|eauto|contradiction].
Qed.

(** C6. The list object the caller passed holds the same elements after the
    call as before it, however the call ends, and so does every other list
    object that existed before the call: the waiter only mutates the copy it
    allocated. *)
Theorem wait_for_txs_leaves_callers_list (fuel : nat) (caller : loc)
    (timeout : Z) (w : World) :
  let w' := final Chain (wait_for_txs fuel caller timeout w) w in
  heap w' !! caller = heap w !! caller /\ heap w ⊆ heap w'.
Proof.
  cbn zeta.
  destruct (heap w !! caller) as [txs|] eqn:Hc.
  - pose proof (shape_final_heap _ _ _ (wait_for_txs_shape fuel caller timeout w))
      as (w0 & (new & _ & _ & _ & Hframe) & ->).
    assert (Hsame : forall l, is_Some (heap w !! l) -> heap w0 !! l = heap w !! l).
    { intros l Hl. apply Hframe. intros ->.
      rewrite fresh_loc_unused in Hl. now destruct Hl. }
    split.
    + rewrite Hsame, Hc; eauto.
    + apply map_subseteq_spec. intros l v Hl. rewrite Hsame; eauto.
  - rewrite wait_for_txs_dangling by assumption. cbn [final].
    split; [assumption|reflexivity].
Qed.

(** *** Further facts: nothing to do, what is polled, how late it ends *)

(** X6. With an empty list the call returns at once, whatever the timeout
    and the client: no query, no status line, no sleep; only the working
    copy was allocated. *)
Theorem wait_for_txs_empty_list (fuel : nat) (caller : loc) (timeout : Z)
    (w : World) :
  heap w !! caller = Some [] ->
  wait_for_txs (S fuel) caller timeout w
  = Ok tt (mkWorld (now w) (chain w)
             (<[fresh (dom (heap w)) := []]> (heap w)) (trace w)).
Proof.
  intros Hcaller. unfold Waiter.wait_for_txs.
  unfold bind at 1, monotonic at 1.
  unfold bind at 1, list_copy at 1, bind at 1, list_get at 1.
  rewrite Hcaller.
  set (w0 := mkWorld _ _ _ _).
  assert (Hheap0 : heap w0 !! fresh (dom (heap w)) = Some [])
    by apply lookup_insert_eq.
  unfold bind at 1. rewrite (wait_loop_empty _ _ _ _ _ _ Hheap0).
  unfold bind, list_get. now rewrite Hheap0.
Qed.

(** X7. With a timeout of zero or less and something to wait for, the call
    raises its timeout error at once, naming every identifier of the list,
    without a single query, status line or sleep. *)
Theorem wait_for_txs_no_time (fuel : nat) (caller : loc) (timeout : Z)
    (w : World) (txs : list txhash) :
  heap w !! caller = Some txs -> txs <> [] -> timeout <= 0 ->
  wait_for_txs (S fuel) caller timeout w
  = Raise (ScenarioTxError (timeout_message txs))
      (mkWorld (now w) (chain w)
         (<[fresh (dom (heap w)) := txs]> (heap w)) (trace w)).
Proof.
  intros Hcaller Hne Htimeout. unfold Waiter.wait_for_txs.
  unfold bind at 1, monotonic at 1.
  unfold bind at 1, list_copy at 1, bind at 1, list_get at 1.
  rewrite Hcaller.
  set (w0 := mkWorld _ _ _ _).
  assert (Hheap0 : heap w0 !! fresh (dom (heap w)) = Some txs)
    by apply lookup_insert_eq.
  unfold bind at 1. rewrite wait_loop_unfold, Hheap0.
  replace (now w0 - now w <? timeout) with false
    by (symmetry; apply Z.ltb_ge; subst w0; cbn [now]; lia).
  rewrite andb_false_r.
  unfold bind, list_get. rewrite Hheap0.
  destruct txs as [|x txs']; [contradiction|]. reflexivity.
Qed.

Lemma pending_pass_head (txs : list txhash) (base evs : list event)
    (logs : bool) (n : nat) (r : Z) (w : World) :
  trace w = evs ++ base -> polls_only_pending txs evs ->
  let w1 := if logs then emit Chain (EvLog (now w) n r) w else w in
  exists evs1,
    trace w1 = evs1 ++ base /\ heap w1 = heap w
    /\ unconfirmed evs1 txs = unconfirmed evs txs
    /\ polls_only_pending txs evs1.
Proof.
  intros Htr Hp. destruct logs; cbn zeta.
  - exists (EvLog (now w) n r :: evs). simpl.
    split; [now rewrite Htr|]. split; [reflexivity|].
    split; [now apply unconfirmed_skip|now split].
  - now exists evs.
Qed.

Lemma poll_all_pending (txs : list txhash) (l : loc) (base : list event)
    (snapshot : list txhash) :
  NoDup txs ->
  forall (w : World) (evs : list event),
    trace w = evs ++ base ->
    heap w !! l = Some (unconfirmed evs txs) ->
    NoDup snapshot -> snapshot ⊆ unconfirmed evs txs ->
    polls_only_pending txs evs ->
    match poll_all l snapshot w with
    | Ok _ w' => exists evs',
        trace w' = evs' ++ base /\ polls_only_pending txs evs'
        /\ heap w' !! l = Some (unconfirmed evs' txs)
    | Raise _ w' => exists evs',
        trace w' = evs' ++ base /\ polls_only_pending txs evs'
    | OutOfFuel => False
    end.
Proof.
  intros Hnd.
  induction snapshot as [|h rest IH]; intros w evs Htr Hheap Hsnap Hsub Hp.
  - simpl. now exists evs.
  - apply NoDup_cons in Hsnap as [Hh Hrest].
    assert (Hin : h ∈ unconfirmed evs txs) by (apply Hsub; left).
    assert (Hcur : NoDup (unconfirmed evs txs)) by now apply unconfirmed_NoDup.
    cbn [Waiter.poll_all]. unfold bind at 1. unfold Waiter.get_transaction.
    destruct (getTransaction (chain w) (now w) h) as [[[err|tx] c'] d].
    { exists (EvQuery (now w) h (inl err) :: evs). simpl.
      split; [now rewrite Htr|now split]. }
    unfold bind at 1.
    rewrite (remove_if_included l h tx (now w) _ (unconfirmed evs txs))
      by assumption.
    unfold bind at 1, sleep. cbn [now chain heap trace].
    set (w3 := mkWorld _ _ _ _).
    set (evs3 := EvSleep (now w + Z.of_N d) 100 :: EvQuery (now w) h (inr tx) :: evs).
    assert (Hun3 : unconfirmed evs3 txs
                   = unconfirmed [EvQuery (now w) h (inr tx)] (unconfirmed evs txs)).
    { subst evs3. rewrite unconfirmed_skip by discriminate.
      now rewrite <- unconfirmed_app. }
    apply (IH w3 evs3).
    + subst w3 evs3. cbn [trace]. now rewrite Htr.
    + subst w3. cbn [heap]. rewrite lookup_insert_eq. now rewrite Hun3.
    + exact Hrest.
    + intros x Hx. rewrite Hun3, unconfirmed_query.
      destruct (included tx).
      * apply list_elem_of_filter. split.
        -- intros ->. contradiction.
        -- apply Hsub. now right.
      * apply Hsub. now right.
    + subst evs3. simpl. repeat split; assumption.
Qed.

Lemma wait_loop_pending (txs : list txhash) (start timeout : Z) (l : loc)
    (base : list event) (fuel : nat) :
  NoDup txs ->
  forall (w : World) (evs : list event) (outstanding : nat),
    trace w = evs ++ base ->
    heap w !! l = Some (unconfirmed evs txs) ->
    polls_only_pending txs evs ->
    match wait_loop fuel start timeout l outstanding w with
    | Ok _ w' | Raise _ w' =>
        exists evs', trace w' = evs' ++ base /\ polls_only_pending txs evs'
    | OutOfFuel => True
    end.
Proof.
  intros Hnd.
  induction fuel as [|fuel IH]; intros w evs outstanding Htr Hheap Hp; [exact I|].
  rewrite wait_loop_unfold, Hheap.
  destruct (negb (Nat.eqb (length (unconfirmed evs txs)) 0)
            && (now w - start <? timeout)); [|now exists evs].
  cbn zeta.
  destruct (pending_pass_head txs base evs
              (negb (Nat.eqb outstanding (length (unconfirmed evs txs)))
               || (Z.quot (timeout - (now w - start)) 1000 mod 10 =? 0))
              (length (unconfirmed evs txs))
              (Z.quot (timeout - (now w - start)) 1000) w Htr Hp)
    as (evs1 & Htr1 & Hheap1 & Hun1 & Hp1).
  cbn zeta in Htr1, Hheap1. revert Htr1 Hheap1.
  generalize (if negb (Nat.eqb outstanding (length (unconfirmed evs txs)))
                 || (Z.quot (timeout - (now w - start)) 1000 mod 10 =? 0)
              then emit Chain (EvLog (now w) (length (unconfirmed evs txs))
                                 (Z.quot (timeout - (now w - start)) 1000)) w
              else w).
  generalize (if negb (Nat.eqb outstanding (length (unconfirmed evs txs)))
                 || (Z.quot (timeout - (now w - start)) 1000 mod 10 =? 0)
              then length (unconfirmed evs txs) else outstanding).
  intros outstanding' w1 Htr1 Hheap1.
  assert (Hheap1' : heap w1 !! l = Some (unconfirmed evs1 txs))
    by now rewrite Hheap1, Hun1.
  pose proof (poll_all_pending txs l base (unconfirmed evs txs) Hnd w1 evs1 Htr1
                Hheap1' (unconfirmed_NoDup _ _ Hnd)) as Hpoll.
  rewrite Hun1 in Hpoll. specialize (Hpoll (reflexivity _) Hp1).
  destruct (poll_all l (unconfirmed evs txs) w1) as [[] w2|e w2|];
    [| |contradiction].
  - destruct Hpoll as (evs2 & Htr2 & Hp2 & Hheap2).
    apply (IH _ (EvSleep (now w2) 500 :: evs2)).
    + cbn [trace]. now rewrite Htr2.
    + cbn [heap]. rewrite Hheap2. reflexivity.
    + now split.
  - destruct Hpoll as (evs2 & Htr2 & Hp2). now exists evs2.
Qed.

(** X8. On a duplicate-free list every query of a call is for an
    identifier of the list that no earlier poll of the call saw included:
    nothing else is ever asked for, and a transaction seen in a block is not
    asked for again. (The call ends on the fuel its timeout asks for.) *)
Theorem wait_for_txs_polls_only_pending (fuel : nat) (caller : loc)
    (timeout : Z) (w : World) (txs : list txhash) :
  heap w !! caller = Some txs -> NoDup txs ->
  ((fuel_for timeout <= fuel)%nat -> wait_for_txs fuel caller timeout w <> OutOfFuel)
  /\ polls_only_pending txs
       (events_since Chain w (final Chain (wait_for_txs fuel caller timeout w) w)).
Proof.
  intros Hcaller Hnd.
  split; [apply wait_for_txs_terminates|].
  assert (Hgoal : exists evs,
             trace (final Chain (wait_for_txs fuel caller timeout w) w)
             = evs ++ trace w
             /\ polls_only_pending txs evs).
  { unfold Waiter.wait_for_txs.
    unfold bind at 1, monotonic at 1.
    unfold bind at 1, list_copy at 1, bind at 1, list_get at 1.
    rewrite Hcaller.
    set (l := fresh (dom (heap w))).
    set (w0 := mkWorld _ _ _ _).
    pose proof (wait_loop_pending txs (now w) timeout l (trace w) fuel Hnd w0 [] 0%nat
                  eq_refl) as Hloop.
    rewrite unconfirmed_nil in Hloop.
    specialize (Hloop (lookup_insert_eq _ _ _) I).
    unfold bind at 1.
    destruct (wait_loop fuel (now w) timeout l 0%nat w0) as [[] w1|e w1|].
    - unfold bind, list_get.
      destruct (heap w1 !! l) as [xs|]; [|exact Hloop].
      destruct (negb _); exact Hloop.
    - exact Hloop.
    - now exists []. }
  destruct Hgoal as (evs & Htr & Hp).
  now rewrite (events_since_app _ _ _ Htr).
Qed.

End Facts.

(** *** The scenarios of the specification, run *)


Lemma two_pending_NoDup : NoDup ["tx1"; "tx2"].
Proof.
  apply NoDup_cons. split; [|apply NoDup_singleton].
  intros Hin. apply list_elem_of_singleton in Hin. discriminate.
Defined.

(** [tx1] confirms at once and [tx2] on its fourth poll; with five seconds
    the call returns, having left the caller's list alone. *)
Example wait_for_txs_spec_scenario_success :
  exists w', wait_for_txs nat slow_client 12 1%positive 5000 two_pending = Ok tt w'
             /\ now w' = 2500
             /\ heap w' !! 1%positive = Some ["tx1"; "tx2"].
Proof. eexists. vm_compute. repeat split. Qed.

(** With a second and a half, [tx2] is still pending when the loop gives up:
    the error names [tx2] and not [tx1]. *)
Example wait_for_txs_spec_scenario_timeout :
  exists w', wait_for_txs nat slow_client 12 1%positive 1500 two_pending
             = Raise (ScenarioTxError "Timeout waiting for txhashes: tx2") w'
             /\ now w' = 1900.
Proof. eexists. vm_compute. repeat split. Qed.





(** C3, as stated, fails: the very first query raises a connection error and
    the call ends with that error at clock 0, three minutes before its
    deadline, although every later poll would have found the transactions
    included. The failure is not logged and nothing is polled again. *)
Lemma wait_for_txs_aborts_on_first_rpc_failure :
  exists w',
    wait_for_txs nat flaky_client (fuel_for 180000) 1%positive 180000 two_pending
    = Raise (RpcError "ConnectionError") w'
    /\ now w' = 0
    /\ trace w' = [EvQuery 0 "tx1" (inl "ConnectionError"); EvLog 0 2 180].
Proof. eexists. vm_compute. repeat split. Qed.

(** The failed query of the flaky client ends the call. *)
Lemma wait_for_txs_propagates_rpc_failure_witness :
  exists w' earlier,
    wait_for_txs nat flaky_client 400 1%positive 180000 two_pending
    = Raise (RpcError "ConnectionError") w'
    /\ events_since nat two_pending w' = EvQuery 0 "tx1" (inl "ConnectionError") :: earlier.
Proof.
  apply (wait_for_txs_propagates_rpc_failure nat flaky_client 400 1%positive 180000
           two_pending 0 "tx1" "ConnectionError").
  vm_compute. left.
Defined.

(** *** The further facts on the examples *)

Lemma wait_for_txs_empty_list_witness :
  wait_for_txs unit never_client 1 1%positive 180000 nothing_pending
  = Ok tt (mkWorld (now nothing_pending) (chain nothing_pending)
             (<[fresh (dom (heap nothing_pending)) := []]> (heap nothing_pending))
             (trace nothing_pending)).
Proof.
  apply (wait_for_txs_empty_list unit never_client 0 1%positive 180000
           nothing_pending).
  reflexivity.
Defined.

Lemma wait_for_txs_no_time_witness :
  wait_for_txs nat slow_client 1 1%positive 0 two_pending
  = Raise (ScenarioTxError (timeout_message ["tx1"; "tx2"]))
      (mkWorld (now two_pending) (chain two_pending)
         (<[fresh (dom (heap two_pending)) := ["tx1"; "tx2"]]> (heap two_pending))
         (trace two_pending)).
Proof.
  apply (wait_for_txs_no_time nat slow_client 0 1%positive 0 two_pending
           ["tx1"; "tx2"]); [reflexivity|discriminate|lia].
Defined.

Lemma wait_for_txs_polls_only_pending_witness :
  wait_for_txs nat slow_client 12 1%positive 5000 two_pending <> OutOfFuel
  /\ polls_only_pending ["tx1"; "tx2"]
       (events_since nat two_pending
          (final nat (wait_for_txs nat slow_client 12 1%positive 5000 two_pending)
             two_pending)).
Proof.
  destruct (wait_for_txs_polls_only_pending nat slow_client 12 1%positive 5000
              two_pending ["tx1"; "tx2"]) as [Hends Hpolls].
  - reflexivity.
  - exact two_pending_NoDup.
  - split; [apply Hends; vm_compute; lia|exact Hpolls].
Defined.

End WaiterFacts.
(* ===================================================================== *)
(** * Facts about get_or_deploy_token *)
(* ===================================================================== *)

Module TokenFacts.
Import Token.

Section Facts.

Variable Node : Type.
Variable has_code : Node -> scalar -> bool.
Variable token_name token_symbol : Node -> scalar -> string.
Variable deploy : Node -> Z * Z * scalar * scalar -> string * Node.
Variable abi : string.
Variable to_checksum_address : scalar -> string + exn.

Abbreviation World := (Token.World Node).
Abbreviation resolve :=
  (get_or_deploy_token Node has_code token_name token_symbol deploy abi
     to_checksum_address).


Lemma token_config_of_nothing (scn : scenario) :
  scn !! "token" = None \/ scn !! "token" = Some None
  \/ scn !! "token" = Some (Some ∅) ->
  token_config_of scn = ∅.
Proof.
  unfold token_config_of. intros [-> | [-> | ->]]; reflexivity.
Qed.

(** X10. A scenario without a [token] section, with a [token] section left
    empty ([None]) or with an empty mapping is treated alike: nothing is
    looked up in [None], no address is checked, and a CustomToken with the
    generated name and symbol is deployed, exactly as for the empty
    scenario; the proxy of the new contract is returned, or the exception
    of [to_checksum_address] if it rejects the address the client gave. *)
Theorem get_or_deploy_token_without_token_section (scn : scenario) (w : World) :
  scn !! "token" = None \/ scn !! "token" = Some None
  \/ scn !! "token" = Some (Some ∅) ->
  let params := (0, 0, SStr (generated_name (uuid4 Node w) (now Node w)),
                 SStr (generated_symbol (uuid4 Node w))) in
  resolve scn w = resolve ∅ w
  /\ exists w',
       calls Node w' = DeployContract "CustomToken" params 1 :: calls Node w
       /\ match to_checksum_address (SStr (deploy (node Node w) params).1) with
          | inl _ =>
              resolve scn w = Ok (mkProxy (SStr (deploy (node Node w) params).1)) w'
          | inr e => resolve scn w = Raise e w'
          end.
Proof.
  intros Hscn. cbn zeta.
  assert (Hempty : token_config_of (∅ : scenario) = ∅)
    by (apply token_config_of_nothing; left; apply lookup_empty).
  unfold get_or_deploy_token.
  rewrite (token_config_of_nothing scn Hscn), Hempty.
  split; [reflexivity|].
  unfold dict_get. rewrite !lookup_empty. cbn [truthy].
  unfold bind, checksum_address, deploy_solidity_contract, log, ret. cbn [node].
  destruct (deploy (node Node w) _) as [address node'].
  cbn [contract_address fst snd].
  destruct (to_checksum_address _) as [a|e]; eexists; split.
  2, 4: reflexivity. all: reflexivity.
Qed.

End Facts.


(** Without a name in the scenario the generated one is used. *)
Example get_or_deploy_token_generates_name :
  exists w',
    resolve_example node_has_code scenario_plain = Ok (mkProxy (SStr new_address)) w'
    /\ calls unit w'
       = [DeployContract "CustomToken"
            (0, 0,
             SStr "Scenario Test Token 3f2a9c1e-0000-4000-8000-000000000000 2018-10-01T12:00",
             SStr "T3f2") 1].
Proof. eexists. vm_compute. split; reflexivity. Qed.


Lemma get_or_deploy_token_without_token_section_witness :
  exists w',
    calls unit w'
    = [DeployContract "CustomToken"
         (0, 0,
          SStr (generated_name (uuid4 unit fresh_run) (now unit fresh_run)),
          SStr (generated_symbol (uuid4 unit fresh_run))) 1]
    /\ resolve_example node_has_code scenario_plain
       = Ok (mkProxy (SStr new_address)) w'.
Proof.
  destruct (get_or_deploy_token_without_token_section unit node_has_code
              node_token_name node_token_symbol node_deploy "abi"
              checksum_of_digits scenario_plain fresh_run) as (_ & w' & Hcalls & Hres).
  - right. left. reflexivity.
  - exists w'. split; [exact Hcalls|exact Hres].
Defined.

End TokenFacts.

(* ===================================================================== *)
(** * Facts about get_gas_price_strategy *)
(* ===================================================================== *)

Module GasFacts.
Import Gas.

Section Facts.

Variables Web3 Tx : Type.
Variables fast medium : Web3 -> Tx -> pyvalue.

Abbreviation strategy_for := (get_gas_price_strategy Web3 Tx fast medium).

(** C10. An integer (a [bool] included, as [isinstance] has it) yields a
    strategy that returns that very value whatever it is called with; the
    strings [fast] and [medium] yield the two named strategies; every other
    value raises [ValueError]; and these are the only outcomes. *)
Theorem get_gas_price_strategy_total (gas_price : pyvalue) :
  (isinstance_int gas_price = true ->
     exists f, strategy_for gas_price = inl f
               /\ forall web3 tx, f web3 tx = gas_price)
  /\ (gas_price = PyStr "fast" -> strategy_for gas_price = inl fast)
  /\ (gas_price = PyStr "medium" -> strategy_for gas_price = inl medium)
  /\ (isinstance_int gas_price = false ->
      gas_price <> PyStr "fast" -> gas_price <> PyStr "medium" ->
      exists msg, strategy_for gas_price = inr (ValueError msg)).
Proof.
  unfold get_gas_price_strategy. split; [|split; [|split]].
  - intros ->. eexists. split; reflexivity.
  - now intros ->.
  - now intros ->.
  - intros -> Hfast Hmedium.
    destruct gas_price as [z|b|s| |s]; try discriminate; simpl; eauto.
    destruct (String.eqb_spec s "fast") as [->|_]; [contradiction|].
    destruct (String.eqb_spec s "medium") as [->|_]; [contradiction|].
    eauto.
Qed.

End Facts.

(** One gwei as a fixed price, the two names, and a name that is neither. *)
Lemma get_gas_price_strategy_total_witness :
  (exists f, get_gas_price_strategy unit unit fast_example medium_example (PyInt 1000000000)
             = inl f
             /\ forall web3 tx, f web3 tx = PyInt 1000000000)
  /\ get_gas_price_strategy unit unit fast_example medium_example (PyStr "fast")
     = inl fast_example
  /\ get_gas_price_strategy unit unit fast_example medium_example (PyStr "medium")
     = inl medium_example
  /\ (exists msg, get_gas_price_strategy unit unit fast_example medium_example
                    (PyStr "slow") = inr (ValueError msg)).
Proof.
  split; [|split; [|split]].
  - apply (get_gas_price_strategy_total unit unit fast_example medium_example
             (PyInt 1000000000)). reflexivity.
  - apply (get_gas_price_strategy_total unit unit fast_example medium_example
             (PyStr "fast")). reflexivity.
  - apply (get_gas_price_strategy_total unit unit fast_example medium_example
             (PyStr "medium")). reflexivity.
  - apply (get_gas_price_strategy_total unit unit fast_example medium_example
             (PyStr "slow")); [reflexivity|discriminate|discriminate].
Defined.

End GasFacts.

(* ===================================================================== *)
(** * Facts about TimeOutHTTPAdapter *)
(* ===================================================================== *)

Module TimeOutHTTPAdapterFacts.
Import TimeOutHTTPAdapter.

(** X11. Whatever is sent, the call handed on to [HTTPAdapter.send] has a
    [timeout]: the request's own when that is truthy, and the adapter's
    when the request brings none or a falsy one (a request timeout of 0 or
    [None] is replaced); the positional arguments and every other keyword
    go through untouched; sending what was handed on once more changes
    nothing; and an adapter whose timeout is truthy never hands on a
    request without a truthy timeout. *)
Theorem send_supplies_the_timeout (self : t) (args : list value) (kw : kwargs) :
  let forwarded := send self args kw in
  forwarded.1 = args
  /\ (forall k, k <> "timeout" -> forwarded.2 !! k = kw !! k)
  /\ (forall v0, kw !! "timeout" = Some v0 -> truthy v0 = true ->
                 forwarded.2 !! "timeout" = Some v0)
  /\ (kw !! "timeout" = None -> forwarded.2 !! "timeout" = Some (timeout self))
  /\ (forall v0, kw !! "timeout" = Some v0 -> truthy v0 = false ->
                 forwarded.2 !! "timeout" = Some (timeout self))
  /\ (truthy (timeout self) = true ->
      exists v, forwarded.2 !! "timeout" = Some v /\ truthy v = true)
  /\ send self forwarded.1 forwarded.2 = forwarded.
Proof.
  cbn zeta. unfold send.
  destruct (kw !! "timeout") as [v0|] eqn:Hkw;
    [destruct (truthy v0) eqn:Hv0|]; cbn [negb fst snd].
  - rewrite Hkw, Hv0. cbn [negb].
    split; [reflexivity|]. split; [reflexivity|].
    split; [now intros v1 [= <-] _|].
    split; [discriminate|].
    split; [intros v1 [= <-]; congruence|].
    split; [intros _; now exists v0|reflexivity].
  - rewrite lookup_insert_eq, insert_insert_eq.
    split; [reflexivity|].
    split; [intros k Hk; now apply lookup_insert_ne|].
    split; [intros v1 [= <-]; congruence|].
    split; [discriminate|].
    split; [reflexivity|].
    split; [intros Hself; now exists (timeout self)|].
    now destruct (negb (truthy (timeout self))).
  - rewrite lookup_insert_eq, insert_insert_eq.
    split; [reflexivity|].
    split; [intros k Hk; now apply lookup_insert_ne|].
    split; [discriminate|].
    split; [reflexivity|].
    split; [reflexivity|].
    split; [intros Hself; now exists (timeout self)|].
    now destruct (negb (truthy (timeout self))).
Qed.

(** The adapter of the examples forwards its 2 s for a request sent with
    [timeout=None], and leaves [stream] alone. *)
Lemma send_supplies_the_timeout_witness :
  (send two_seconds [] plain_request).2 !! "timeout" = Some (VNumber 2000)
  /\ (send two_seconds [] plain_request).2 !! "stream" = Some (VOther false "False").
Proof.
  destruct (send_supplies_the_timeout two_seconds [] plain_request)
    as (_ & Hframe & _ & _ & Hfalsy & _ & _).
  split.
  - exact (Hfalsy VNone eq_refl eq_refl).
  - rewrite Hframe by discriminate. reflexivity.
Defined.

(** X12. Construction never hands [timeout] to [HTTPAdapter.__init__] and
    hands it every other keyword and all positional arguments; the adapter
    keeps the timeout it was given, [None] when it was given none, and that
    is what it hands on with a request that brings no timeout. *)
Theorem init_keeps_the_timeout_to_itself (args : list value) (kw : kwargs)
    (rargs : list value) (rkw : kwargs) :
  rkw !! "timeout" = None ->
  let self := __init__ args kw in
  base_kwargs self !! "timeout" = None
  /\ (forall k, k <> "timeout" -> base_kwargs self !! k = kw !! k)
  /\ base_args self = args
  /\ (send self rargs rkw).2 !! "timeout" = Some (default VNone (kw !! "timeout")).
Proof.
  intros Hr. cbn zeta. unfold __init__. cbn [base_kwargs base_args timeout].
  split; [apply lookup_delete_eq|].
  split; [intros k Hk; now apply lookup_delete_ne|].
  split; [reflexivity|].
  unfold send. rewrite Hr. cbn [snd timeout]. apply lookup_insert_eq.
Qed.

Lemma init_keeps_the_timeout_to_itself_witness :
  base_kwargs two_seconds !! "timeout" = None
  /\ base_kwargs two_seconds !! "max_retries" = Some (VNumber 5000)
  /\ (send two_seconds [] {[ "stream" := VOther false "False" ]}).2 !! "timeout"
     = Some (VNumber 2000).
Proof.
  destruct (init_keeps_the_timeout_to_itself []
              (<["timeout" := VNumber 2000]> {[ "max_retries" := VNumber 5000 ]})
              [] {[ "stream" := VOther false "False" ]})
    as (Hnone & Hframe & _ & Hsend).
  - reflexivity.
  - split; [exact Hnone|]. split; [|exact Hsend].
    rewrite Hframe by discriminate. reflexivity.
Defined.

End TimeOutHTTPAdapterFacts.

(* ===================================================================== *)
(** * Facts about raw_input *)
(* ===================================================================== *)

Module RawInputFacts.
Import RawInput.

Section Facts.

Variable Attrs : Type.
Variable setcbreak : Attrs -> Attrs.
Variable O_NONBLOCK : Z.

Abbreviation with_raw_input := (raw_input Attrs setcbreak O_NONBLOCK).
Abbreviation entered := (enter Attrs setcbreak O_NONBLOCK).

(** X13. On a terminal the body runs in cbreak mode with the bits of
    [O_NONBLOCK] set and every other status flag as it was. When the body
    ends normally the stream has its attributes and flags of before,
    whatever the body did to them; when the body raises, the exception comes
    out and nothing is restored: the stream stays as the body left it. On
    something that is no terminal nothing is changed and the body does not
    run. *)
Theorem raw_input_restores_only_on_normal_exit (is_a_tty : bool)
    (body : stream Attrs -> (unit + exn) * stream Attrs) (s : stream Attrs) :
  (stty (entered s) = setcbreak (stty s)
   /\ forall i, Z.testbit (fl (entered s)) i
                = Z.testbit (fl s) i || Z.testbit O_NONBLOCK i)
  /\ (is_a_tty = true ->
      (forall s', body (entered s) = (inl tt, s') ->
                  with_raw_input is_a_tty body s = (inl tt, s))
      /\ (forall e s', body (entered s) = (inr e, s') ->
                       with_raw_input is_a_tty body s = (inr (Raised e), s')))
  /\ (is_a_tty = false -> with_raw_input is_a_tty body s = (inr TermiosError, s)).
Proof.
  split; [|split].
  - split; [reflexivity|]. intros i. unfold enter. cbn [fl].
    apply Z.lor_spec.
  - intros ->. unfold raw_input. cbn [negb]. split.
    + intros s' ->. cbn [fl stty]. now destruct s.
    + now intros e s' ->.
  - now intros ->.
Qed.

End Facts.

Lemma raw_input_restores_only_on_normal_exit_witness :
  raw_input (bool * bool) cbreak_example 2048 true meddling_body cooked
  = (inl tt, cooked)
  /\ raw_input (bool * bool) cbreak_example 2048 true failing_body cooked
     = (inr (Raised (ValueError "bad key")), mkStream (false, false) 2050)
  /\ raw_input (bool * bool) cbreak_example 2048 false quiet_body cooked
     = (inr TermiosError, cooked).
Proof.
  destruct (raw_input_restores_only_on_normal_exit (bool * bool) cbreak_example
              2048 true meddling_body cooked) as (_ & Htty & _).
  destruct (Htty eq_refl) as (Hnormal & _).
  destruct (raw_input_restores_only_on_normal_exit (bool * bool) cbreak_example
              2048 true failing_body cooked) as (_ & Htty' & _).
  destruct (Htty' eq_refl) as (_ & Hraise).
  destruct (raw_input_restores_only_on_normal_exit (bool * bool) cbreak_example
              2048 false quiet_body cooked) as (_ & _ & Hnotty).
  split; [|split].
  - apply (Hnormal (mkStream (true, false) 0)). reflexivity.
  - apply (Hraise (ValueError "bad key")). reflexivity.
  - apply Hnotty. reflexivity.
Defined.

End RawInputFacts.

(* ===================================================================== *)
(** * Facts about main and send_notification_mail *)
(* ===================================================================== *)

Module MainFacts.
Import Main.

Section Facts.

Variable Errors : Type.
Variable has_errors : Errors -> bool.
Variable json_dumps : Errors -> attempt string.
Variable format_exc : exn -> string.
Variable post : nat -> mail -> attempt response.
Variable basename : string -> string.
Variable now_text : string.
Variable handlers : list bool.
Variable load_account : attempt string.
Variable make_runner : attempt (Runner Errors).
Variable is_a_tty : bool.

Abbreviation run_main :=
  (main Errors has_errors json_dumps format_exc post basename now_text handlers
        load_account make_runner is_a_tty).
Abbreviation report := (result_mail has_errors json_dumps format_exc).

Abbreviation failure_mail := (error_mail format_exc).

Ltac run_main_body :=
  unfold main, try_except, try_block, except_block, finally_block,
    send_notification_mail, requests_post, redirect_handler, log, emit,
    bind, lift, ret, raise, result_mail, error_mail;
  destruct (first_stream_handler handlers 0); cbn.

Ltac cases_of_run runner :=
  let errs := fresh "errs" in
  let e := fresh "e" in
  let Hrun := fresh "Hrun" in
  let Herrs := fresh "Herrs" in
  let Hdumps := fresh "Hdumps" in
  destruct (run_scenario runner) as [errs|e] eqn:Hrun; cbn;
  [destruct (has_errors errs) eqn:Herrs; cbn;
   [destruct (json_dumps errs) as [?|?] eqn:Hdumps; cbn|]|].

(** X14. A mail is posted only when the runner has a notification address
    and an API key was given, and every mail posted goes to that address
    under that key. *)
Theorem main_mails_only_with_address_and_key (name : string)
    (key : option string) (m : mail) :
  In m (posts (trace_of (run_main name key))) ->
  exists runner,
    make_runner = Done runner
    /\ truthy (notification_email runner) = true
    /\ truthy key = true
    /\ mail_to m = notification_email runner
    /\ api_key m = key.
Proof.
  run_main_body;
    (destruct load_account as [address|e0]; cbn;
     [|destruct is_a_tty; cbn; tauto]);
    (destruct make_runner as [runner|e1]; cbn;
     [|destruct is_a_tty; cbn; tauto]);
    cases_of_run runner;
    destruct (truthy (notification_email runner)) eqn:Hmail; cbn;
    destruct (truthy key) eqn:Hkey; cbn;
    repeat match goal with
           | |- context [post ?n ?x] => destruct (post n x) eqn:?; cbn
           end;
    destruct is_a_tty; cbn;
    intros Hin;
    repeat match goal with
           | H : _ \/ _ |- _ => destruct H as [<-|H]
           | H : False |- _ => destruct H
           end;
    exists runner; cbn; auto.
Qed.



(** X17. When posting the report fails, the failure is itself treated as an
    exception of the run: a second mail, with the traceback of the failed
    post, is sent to the same address, and only if that one fails too does
    the exception leave [main]. *)
Theorem main_reports_an_undelivered_mail (name : string) (key : option string)
    (address : string) (runner : Runner Errors) (errs : Errors) (e : exn) :
  load_account = Done address ->
  make_runner = Done runner ->
  run_scenario runner = Done errs ->
  (has_errors errs = true -> exists message, json_dumps errs = Done message) ->
  truthy (notification_email runner) = true ->
  truthy key = true ->
  (forall m, post 0 m = Fails e) ->
  posts (trace_of (run_main name key))
  = [report runner name key; failure_mail runner name key e]
  /\ (is_a_tty = false ->
      match post 1 (failure_mail runner name key e) with
      | Done _ => exists tr, run_main name key = Ok None tr
      | Fails e' => exists tr, run_main name key = Raise e' tr
      end).
Proof.
  intros -> -> Hrun Hdumps Hmail Hkey Hpost.
  run_main_body; rewrite Hrun; cbn;
    (destruct (has_errors errs) eqn:Herrs; cbn;
     [destruct (Hdumps eq_refl) as [message ->]; cbn|]);
    rewrite ?Hmail, ?Hkey; cbn; rewrite Hpost; cbn;
    rewrite ?Hmail, ?Hkey; cbn;
    match goal with
    | |- context [post 1%nat ?x] => destruct (post 1%nat x) eqn:?; cbn
    end;
    destruct is_a_tty; cbn;
    (split; [reflexivity|]); intros Htty; try discriminate Htty;
    eexists; reflexivity.
Qed.

(** X18. When the keystore cannot be loaded or the runner cannot be built,
    the exception leaves [main] at once, on a terminal too: the scenario is
    not run, the user interface is not started, line wrapping is not
    touched, no mail is posted and nothing waits for Ctrl-C. *)
Theorem main_setup_failure (name : string) (key : option string) (e : exn) :
  load_account = Fails e
  \/ ((exists address, load_account = Done address) /\ make_runner = Fails e) ->
  exists tr,
    run_main name key = Raise e tr
    /\ forall ev, In ev tr ->
         ev <> RunScenario /\ ev <> PrintRmam /\ ev <> PrintSmam
         /\ ev <> SleepForever
         /\ (forall m, ev <> Post m) /\ (forall f, ev <> Spawn_ui f).
Proof.
  intros [->|[[address ->] ->]]; run_main_body;
    (eexists; split; [reflexivity|]);
    intros ev Hin; cbn in Hin;
    repeat match goal with
           | H : _ \/ _ |- _ => destruct H as [<-|H]
           | H : False |- _ => destruct H
           end;
    repeat split; discriminate.
Qed.

End Facts.

(** A clean run away from a terminal, with an address and a key: the one
    mail goes to the runner's address under the key given. *)
Lemma main_mails_only_with_address_and_key_witness :
  exists runner,
    Done clean_runner = Done runner
    /\ truthy (notification_email runner) = true
    /\ truthy (Some "key-1") = true
    /\ Some "ops@example.org" = notification_email runner
    /\ Some "key-1" = Some "key-1".
Proof.
  apply (main_mails_only_with_address_and_key (list string) has_errors_example
           dumps_example format_exc_example mailgun_accepts (fun s => s)
           "2018-09-01T12:00:00" [false; true] (Done "0xAcc0")
           (Done clean_runner) false "s.yaml" (Some "key-1")
           (mkMail (Some "ops@example.org") "Scenario successful s.yaml"
                   "Success" (Some "key-1"))).
  vm_compute. left. reflexivity.
Defined.



(** The mail service is down for the first post only: the success mail is
    followed by an error mail, and the run returns. *)
Lemma main_reports_an_undelivered_mail_witness :
  posts (trace_of (main_example mailgun_down_once (Done clean_runner) false
                                (Some "key-1")))
  = [mkMail (Some "ops@example.org") "Scenario successful s.yaml" "Success"
            (Some "key-1");
     mkMail (Some "ops@example.org") "Error running scenario s.yaml" "RpcError"
            (Some "key-1")].
Proof.
  apply (main_reports_an_undelivered_mail (list string) has_errors_example
           dumps_example format_exc_example mailgun_down_once (fun s => s)
           "2018-09-01T12:00:00" [false; true] (Done "0xAcc0")
           (Done clean_runner) false "s.yaml" (Some "key-1")
           "0xAcc0" clean_runner [] (RpcError "ConnectionError")).
  - reflexivity.
  - reflexivity.
  - reflexivity.
  - discriminate.
  - reflexivity.
  - reflexivity.
  - reflexivity.
Defined.

(** A runner that cannot be built, on a terminal. *)
Lemma main_setup_failure_witness :
  exists tr,
    main_example mailgun_accepts (Fails (ValueError "bad scenario")) true
                 (Some "key-1")
    = Raise (ValueError "bad scenario") tr
    /\ forall ev, In ev tr ->
         ev <> RunScenario /\ ev <> PrintRmam /\ ev <> PrintSmam
         /\ ev <> SleepForever
         /\ (forall m, ev <> Post m) /\ (forall f, ev <> Spawn_ui f).
Proof.
  apply (main_setup_failure (list string) has_errors_example
           dumps_example format_exc_example mailgun_accepts (fun s => s)
           "2018-09-01T12:00:00" [false; true] (Done "0xAcc0")
           (Fails (ValueError "bad scenario")) true "s.yaml" (Some "key-1")).
  right. split; [eexists|]; reflexivity.
Defined.

End MainFacts.

(* ===================================================================== *)
(** * Facts about _ui *)
(* ===================================================================== *)

Module UiFacts.
Import Main Ui.

Lemma getlines_from_the_top (buf : LogBuffer.t) (n : Z) :
  0 <= n ->
  getlines buf 0 n
  = Done (rev (take (Z.to_nat n) (LogBuffer.elems (LogBuffer.buffer buf)))).
Proof.
  intros Hn. unfold getlines.
  destruct (n =? 0) eqn:Hz; cbn [negb].
  - apply Z.eqb_eq in Hz. subst n. reflexivity.
  - apply Z.eqb_neq in Hz.
    replace (n <? 0) with false by (symmetry; apply Z.ltb_ge; lia).
    cbn. unfold LogBuffer.getlines.
    destruct (Z.to_nat n) as [|k] eqn:Hk; [lia|].
    now rewrite drop_0.
Qed.

Lemma getlines_below_zero (buf : LogBuffer.t) (n : Z) :
  n < 0 -> exists msg, getlines buf 0 n = Fails (ValueError msg).
Proof.
  intros Hn. unfold getlines.
  replace (n =? 0) with false by (symmetry; apply Z.eqb_neq; lia).
  replace (n <? 0) with true by (symmetry; apply Z.ltb_lt; lia).
  cbn. eexists. reflexivity.
Qed.

Lemma log_lines_of_app (a b : list draw) :
  log_lines_of (a ++ b) = log_lines_of a ++ log_lines_of b.
Proof.
  induction a as [|d a IH]; [reflexivity|].
  destruct d; cbn; now rewrite ?IH.
Qed.

Lemma log_lines_of_log_prints (line_count i : Z) (lines : list string) :
  log_lines_of (log_prints line_count i lines) = lines.
Proof.
  revert i. induction lines as [|l lines IH]; intros i; [reflexivity|].
  cbn. now rewrite IH.
Qed.

Lemma log_prints_no_clear (line_count i : Z) (lines : list string) :
  ~ In Clear (log_prints line_count i lines).
Proof.
  revert i. induction lines as [|l lines IH]; intros i; cbn; [tauto|].
  intros [Hd|Hin]; [discriminate|]. now apply (IH (i + 1)).
Qed.

(** Rows left for the log under a separator two thirds down. *)
Lemma rows_under_separator (h : Z) :
  1 <= h -> 0 <= h - Z.quot (h - 1) 3 * 2 - 1.
Proof.
  intros Hh. rewrite Z.quot_div_nonneg by lia.
  pose proof (Z.mul_div_le (h - 1) 3 ltac:(lia)).
  pose proof (Z.div_pos (h - 1) 3 ltac:(lia) ltac:(lia)). lia.
Qed.

(** The local variables a frame leaves behind. *)
Lemma frame_state (name : string) (st : state) (v : view) (buf : LogBuffer.t)
    (out : list draw) (st' : state) :
  frame name st v buf = (out, Done st') -> st' = resized st v.
Proof.
  unfold frame.
  destruct (getlines buf scrollback _); intros [= _ <-]. reflexivity.
Qed.

Lemma resized_with_root (st : state) (v : view) :
  has_root v ->
  last_height (resized st v) = Z.of_nat (height v)
  /\ last_width (resized st v) = Z.of_nat (width v)
  /\ separator (resized st v) <> 1
  /\ (separator st = 1 \/ separator st = Z.quot (last_height st - 1) 3 * 2 ->
      separator (resized st v) = Z.quot (Z.of_nat (height v) - 1) 3 * 2).
Proof.
  unfold has_root, resized, size_changed. intros Hroot.
  destruct (root_task v) as [r|]; [clear Hroot|congruence].
  destruct (Z.of_nat (height v) =? last_height st) eqn:Hh;
    destruct (Z.of_nat (width v) =? last_width st) eqn:Hw;
    destruct (separator st =? 1) eqn:Hs; cbn;
    rewrite ?Z.eqb_eq, ?Z.eqb_neq in *;
    repeat split; try congruence; try lia.
  intros [H1|H2]; congruence.
Qed.

Lemma resized_without_root (st : state) (v : view) :
  root_task v = None -> separator (resized st v) = separator st.
Proof.
  unfold resized. intros ->. now destruct (size_changed st _).
Qed.

(** In a run in which the root task stays, the separator is either still 1
    or two thirds down the height last seen. *)
Lemma _ui_separator (name : string) (frames : list (view * LogBuffer.t)) :
  forall (st st' : state) (out : list draw),
    separator st = 1 \/ separator st = Z.quot (last_height st - 1) 3 * 2 ->
    (separator st <> 1 -> Forall has_root (map fst frames)) ->
    root_stays (map fst frames) ->
    _ui name frames st = (out, Done st') ->
    separator st' = 1 \/ separator st' = Z.quot (last_height st' - 1) 3 * 2.
Proof.
  induction frames as [|[v buf] frames IH]; intros st st' out Hinv Hseen Hstays.
  - cbn. now intros [= _ <-].
  - cbn [_ui map fst root_stays] in *.
    destruct (frame name st v buf) as [out1 [st1|e]] eqn:Hframe; [|discriminate].
    destruct (_ui name frames st1) as [out2 r] eqn:Hrest.
    intros [= _ ->]. destruct Hstays as [Hhead Hstays].
    apply frame_state in Hframe. subst st1.
    destruct (root_task v) as [r|] eqn:Hroot.
    + assert (Hv : has_root v) by (unfold has_root; congruence).
      destruct (resized_with_root st v Hv) as (Hh & _ & _ & Hsep).
      eapply IH; [ | |exact Hstays|exact Hrest].
      * right. rewrite Hh. now apply Hsep.
      * intros _. now apply Hhead.
    + pose proof (resized_without_root st v Hroot) as Hkeep.
      assert (Hone : separator st = 1).
      { destruct (Z.eq_dec (separator st) 1) as [|Hne]; [assumption|].
        specialize (Hseen Hne). inversion Hseen as [|? ? Hv _]; subst.
        now unfold has_root in Hv. }
      eapply IH; [ | |exact Hstays|exact Hrest].
      * left. congruence.
      * intros Hne. exfalso. apply Hne. congruence.
Qed.

Lemma root_stays_app (views : list view) (v : view) :
  root_stays (views ++ [v]) -> root_stays views.
Proof.
  induction views as [|v0 views IH]; cbn; [tauto|].
  intros [Hhead Hrest]. split; [|now apply IH].
  intros Hv. specialize (Hhead Hv). now apply Forall_app in Hhead as [? _].
Qed.

(** X19. In a run of the loop in which the root task, once there, stays, a
    frame with a root task on a terminal of at least one row never fails:
    it puts the LOG bar two thirds down, at row [int((h - 1) / 3) * 2],
    leaves [h - separator - 1 >= 0] rows for the log, and prints there the
    newest lines of the buffer, as many as there are rows, oldest first. *)
Theorem ui_lays_out_the_log (name : string) (frames : list (view * LogBuffer.t))
    (out : list draw) (st : state) (v : view) (buf : LogBuffer.t) :
  root_stays (map fst frames ++ [v]) ->
  _ui name frames initial = (out, Done st) ->
  has_root v ->
  (1 <= height v)%nat ->
  let h := Z.of_nat (height v) in
  let sep := Z.quot (h - 1) 3 * 2 in
  0 <= h - sep - 1
  /\ exists out',
       frame name st v buf = (out', Done (mkState h (Z.of_nat (width v)) sep))
       /\ In (Bar sep (bar_color v) " LOG " (Z.of_nat (width v))) out'
       /\ log_lines_of out'
          = rev (take (Z.to_nat (h - sep - 1)) (LogBuffer.elems (LogBuffer.buffer buf))).
Proof.
  intros Hstays Hrun Hv Hh. cbn zeta.
  pose proof (rows_under_separator (Z.of_nat (height v)) ltac:(lia)) as Hrows.
  split; [exact Hrows|].
  assert (Hinv : separator st = 1 \/ separator st = Z.quot (last_height st - 1) 3 * 2).
  { refine (_ui_separator name frames initial st out _ _ _ Hrun).
    - now left.
    - cbn. congruence.
    - now apply root_stays_app in Hstays. }
  destruct (resized_with_root st v Hv) as (Hlh & Hlw & _ & Hsep).
  specialize (Hsep Hinv).
  assert (Hst : resized st v
                = mkState (Z.of_nat (height v)) (Z.of_nat (width v))
                          (Z.quot (Z.of_nat (height v) - 1) 3 * 2)).
  { destruct (resized st v); cbn in *. congruence. }
  unfold frame. rewrite Hst. cbn [separator]. unfold scrollback.
  rewrite Z.add_0_r, (getlines_from_the_top buf _ Hrows).
  eexists. split; [reflexivity|]. split.
  - apply in_or_app. right. apply in_or_app. right. now left.
  - rewrite !log_lines_of_app, log_lines_of_log_prints.
    destruct (size_changed st v); destruct (root_task v) as [[? ?]|]; cbn;
      now rewrite app_nil_r.
Qed.

(** X20. After a frame with a root task the screen is not cleared again as
    long as the terminal keeps its size: the separator is then even, so the
    test [separator == 1] of the first frames cannot hold any more, and the
    local variables stay as they are. *)
Theorem ui_clears_once_per_size (name : string) (st st' : state)
    (v v' : view) (buf buf' : LogBuffer.t) (out : list draw) :
  frame name st v buf = (out, Done st') ->
  has_root v ->
  height v' = height v ->
  width v' = width v ->
  ~ In Clear (frame name st' v' buf').1
  /\ forall st'', (frame name st' v' buf').2 = Done st'' -> st'' = st'.
Proof.
  intros Hframe Hv Hh Hw.
  apply frame_state in Hframe. subst st'.
  destruct (resized_with_root st v Hv) as (Hlh & Hlw & Hne & _).
  assert (Hsame : size_changed (resized st v) v' = false).
  { unfold size_changed. rewrite Hh, Hw, Hlh, Hlw, !Z.eqb_refl. cbn.
    destruct (root_task v'); [|reflexivity]. now apply Z.eqb_neq. }
  assert (Hres : resized (resized st v) v' = resized st v).
  { unfold resized at 1. now rewrite Hsame. }
  unfold frame. rewrite Hsame, Hres.
  destruct (getlines buf' scrollback _) as [lines|e]; cbn [fst snd].
  - split; [|now intros st'' [= <-]].
    intros Hin. cbn [app] in Hin.
    destruct Hin as [Hd|Hin]; [discriminate|].
    apply in_app_or in Hin as [Hin|Hin].
    + destruct (root_task v') as [[? ?]|]; cbn in Hin;
        intuition discriminate.
    + cbn in Hin. destruct Hin as [Hd|Hin]; [discriminate|].
      apply in_app_or in Hin as [Hin|Hin].
      * now apply log_prints_no_clear in Hin.
      * cbn in Hin. intuition discriminate.
  - split; [|discriminate].
    intros Hin. cbn [app] in Hin.
    destruct Hin as [Hd|Hin]; [discriminate|].
    apply in_app_or in Hin as [Hin|Hin].
    + destruct (root_task v') as [[? ?]|]; cbn in Hin;
        intuition discriminate.
    + cbn in Hin. intuition discriminate.
Qed.

(** X21. The first frame fails exactly on a terminal too small for the
    log: fewer than two rows while there is no root task, no row at all
    once there is one. [islice] then raises ValueError for the negative
    count of log rows, which ends the loop before any status line is
    drawn. *)
Theorem ui_first_frame_fails_iff_tiny (name : string) (v : view)
    (buf : LogBuffer.t) :
  let tiny := match root_task v with
              | None => (height v <= 1)%nat
              | Some _ => height v = 0%nat
              end in
  ((exists e, (frame name initial v buf).2 = Fails e) <-> tiny)
  /\ (tiny ->
      (exists msg, (frame name initial v buf).2 = Fails (ValueError msg))
      /\ forall row n t r f, ~ In (Status row n t r f) (frame name initial v buf).1).
Proof.
  cbn zeta.
  assert (Hcount : match root_task v with
                   | None => (height v <= 1)%nat
                   | Some _ => height v = 0%nat
                   end
                   <-> Z.of_nat (height v) - separator (resized initial v) - 1 < 0).
  { unfold resized, size_changed, initial. cbn.
    destruct (root_task v) as [r|]; cbn.
    - rewrite orb_true_r. cbn. split.
      + intros ->. reflexivity.
      + intros Hlt. destruct (height v) as [|k]; [reflexivity|].
        pose proof (rows_under_separator (Z.of_nat (S k)) ltac:(lia)). lia.
    - rewrite orb_false_r.
      destruct (negb (Z.of_nat (height v) =? 0) || negb (Z.of_nat (width v) =? 0));
        cbn; lia. }
  unfold frame, scrollback. rewrite Z.add_0_r.
  set (n := Z.of_nat (height v) - separator (resized initial v) - 1) in *.
  destruct (Z.lt_ge_cases n 0) as [Hneg|Hpos].
  - destruct (getlines_below_zero buf n Hneg) as [msg ->]. cbn [fst snd].
    split.
    + split; [intros _; now apply Hcount|intros _; eexists; reflexivity].
    + intros _. split; [eexists; reflexivity|].
      intros row k t r f Hin.
      apply in_app_or in Hin as [Hin|Hin].
      * destruct (size_changed initial v); cbn in Hin; intuition discriminate.
      * apply in_app_or in Hin as [Hin|Hin].
        -- destruct (root_task v) as [[? ?]|]; cbn in Hin; intuition discriminate.
        -- cbn in Hin. intuition discriminate.
  - rewrite (getlines_from_the_top buf n Hpos). cbn [fst snd].
    split.
    + split; [intros [e [=]]|intros Htiny; apply Hcount in Htiny; lia].
    + intros Htiny. apply Hcount in Htiny. lia.
Qed.

(** Two frames before the root task is there, then one with it, on 24
    rows: the LOG bar goes to row 14 and the three buffered lines are
    shown. *)
Lemma ui_lays_out_the_log_witness :
  exists out',
    frame "s.log" (mkState 24 80 1) (running 24) three_lines
    = (out', Done (mkState 24 80 14))
    /\ In (Bar 14 Blue " LOG " 80) out'
    /\ log_lines_of out' = ["one"; "two"; "three"].
Proof.
  destruct (ui_lays_out_the_log "s.log"
              [(starting 24, three_lines); (starting 24, three_lines)]
              ((frame "s.log" initial (starting 24) three_lines).1
               ++ (frame "s.log" (mkState 24 80 1) (starting 24) three_lines).1
               ++ [])
              (mkState 24 80 1) (running 24) three_lines)
    as (_ & out' & H).
  - cbn. repeat split; try (intros Hr; now contradiction Hr);
      repeat constructor.
  - vm_compute. reflexivity.
  - discriminate.
  - cbn. lia.
  - exists out'. exact H.
Defined.

(** On 24 rows the frame after the first one with a root task does not
    clear the screen. *)
Lemma ui_clears_once_per_size_witness :
  ~ In Clear (frame "s.log" (mkState 24 80 14) (running 24) three_lines).1.
Proof.
  apply (ui_clears_once_per_size "s.log" (mkState 24 80 1) (mkState 24 80 14)
           (running 24) (running 24) three_lines three_lines
           (frame "s.log" (mkState 24 80 1) (running 24) three_lines).1).
  - vm_compute. reflexivity.
  - discriminate.
  - reflexivity.
  - reflexivity.
Defined.

(** A terminal of one row, before the root task is there. *)
Lemma ui_first_frame_fails_iff_tiny_witness :
  exists msg, (frame "s.log" initial (starting 1) three_lines).2
              = Fails (ValueError msg).
Proof.
  destruct (ui_first_frame_fails_iff_tiny "s.log" (starting 1) three_lines)
    as (_ & Htiny).
  destruct Htiny as (Hfails & _); [cbn; lia|exact Hfails].
Defined.

End UiFacts.

(* ===================================================================== *)
(** * Facts about wait_for_txs on the clock Python reads *)
(* ===================================================================== *)

Module WaiterTimingFacts.
Import Waiter WaiterTiming.

(** The sleeps between the polls of one pass: the first poll closes what
    was asked for since the poll before it, and each further poll comes
    after one sleep of a tenth of a second. *)
Lemma poll_events_sleeps (pending : list txhash) :
  forall (given : list tx_data) (since_poll : option (list float))
         (rest : list event),
    length given = length pending ->
    sleeps_between_polls since_poll (poll_events pending given ++ rest)
    = match pending with
      | [] => sleeps_between_polls since_poll rest
      | _ :: pending' =>
          match since_poll with Some ds => [rev ds] | None => [] end
          ++ repeat [tenth] (length pending')
          ++ sleeps_between_polls (Some [tenth]) rest
      end.
Proof.
  induction pending as [|h pending IH]; intros given since_poll rest Hlen.
  - destruct given; [reflexivity|discriminate].
  - destruct given as [|tx given]; [discriminate|].
    injection Hlen as Hlen.
    cbn [poll_events app sleeps_between_polls option_map].
    rewrite (IH given (Some [tenth]) rest Hlen).
    destruct pending as [|h' pending'].
    + destruct since_poll; reflexivity.
    + destruct since_poll; reflexivity.
Qed.

(** Between two consecutive polls of a run made of passes, the waiter asks
    for a sleep of a tenth of a second, and for one of half a second more
    where a pass ends in between. *)
Lemma passes_rest_between_polls (start timeout : float) (ps : list pass) :
  forall (pending : list txhash) (last : nat) (since_poll : option (list float))
         (closing : list event),
    passes_fit start timeout pending ps ->
    match since_poll with Some ds => short_rest (rev ds) | None => True end ->
    (forall s, sleeps_between_polls s closing = []) ->
    Forall short_rest
      (sleeps_between_polls since_poll
         (events_of_passes start timeout pending last ps ++ closing)).
Proof.
  induction ps as [|p ps IH]; intros pending last since_poll closing Hfit Hs Hc.
  - cbn [events_of_passes app]. rewrite Hc. constructor.
  - cbn [passes_fit] in Hfit.
    destruct Hfit as (Hne & _ & (r & Hr) & Hlen & Hfit).
    cbn [events_of_passes]. rewrite Hr.
    cbn [app sleeps_between_polls].
    assert (Hskip : forall s rest,
               sleeps_between_polls s
                 ((if due last pending r then [EvLog (length pending) r] else [])
                  ++ rest)
               = sleeps_between_polls s rest)
      by (intros s rest; destruct (due last pending r); reflexivity).
    rewrite <- !app_assoc, Hskip, poll_events_sleeps by exact Hlen.
    destruct pending as [|h pending']; [now destruct Hne|].
    cbn [app sleeps_between_polls option_map].
    apply Forall_app. split.
    { destruct since_poll as [ds|]; [|constructor].
      constructor; [exact Hs|constructor]. }
    apply Forall_app. split.
    { apply Forall_forall. intros ds Hin. apply list_elem_of_In in Hin.
      apply repeat_spec in Hin as ->. now left. }
    apply IH; [exact Hfit| |exact Hc]. now right.
Qed.

Lemma left_after_sublist (ps : list pass) :
  forall pending, sublist (left_after pending ps) pending.
Proof.
  induction ps as [|p ps IH]; intros pending; [reflexivity|].
  cbn [left_after]. etransitivity; [apply IH|apply WaiterFacts.survivors_sublist].
Qed.

(** [int] raises nothing but the two errors of a float that is no number
    or not finite. *)
Lemma int_raises (x : float) (e : exn) :
  int x = inr e ->
  e = OverflowError "cannot convert float infinity to integer"
  \/ e = ValueError "cannot convert float NaN to integer".
Proof.
  unfold int. destruct (Prim2SF x); intros H; try discriminate H.
  - left. congruence.
  - right. congruence.
Qed.

Section Facts.

Variable Env : Type.
Variable read_clock : Env -> float * Env.
Variable pass_time : Env -> float -> Env.
Variable getTransaction : Env -> txhash -> (string + tx_data) * Env.

Abbreviation World := (WaiterTiming.World Env).
Abbreviation poll_all := (WaiterTiming.poll_all Env pass_time getTransaction).
Abbreviation wait_loop :=
  (WaiterTiming.wait_loop Env read_clock pass_time getTransaction).
Abbreviation wait_for_txs :=
  (WaiterTiming.wait_for_txs Env read_clock pass_time getTransaction).
Abbreviation replays := (WaiterTiming.replays Env read_clock pass_time getTransaction).
Abbreviation run_of := (WaiterTiming.run_of Env read_clock pass_time getTransaction).

(** One pass over the outstanding identifiers: either every one of them is
    asked about and answered, and those not in a block are left; or the
    client raises, which ends the pass right after that query. *)
Lemma poll_all_answers (snapshot : list txhash) :
  forall (kept : list txhash) (w : World),
    NoDup (kept ++ snapshot) ->
    match poll_all snapshot (kept ++ snapshot) w with
    | Ok undone w' => exists given,
        length given = length snapshot
        /\ undone = kept ++ survivors snapshot given
        /\ trace w' = rev (poll_events snapshot given) ++ trace w
    | Raise e w' => exists h err new,
        e = RpcError err /\ trace w' = EvQuery h (inl err) :: new ++ trace w
    | OutOfFuel _ => False
    end.
Proof.
  induction snapshot as [|h rest IH]; intros kept w Hnd.
  - simpl. exists []. rewrite app_nil_r. repeat split.
  - cbn [WaiterTiming.poll_all]. unfold bind at 1, get_transaction.
    destruct (getTransaction (env w) h) as [[err|tx] e1].
    + exists h, err, []. split; reflexivity.
    + set (w1 := mkWorld e1 _).
      assert (Hnot : h ∉ kept).
      { apply NoDup_app in Hnd as (_ & Hdisj & _). intros Hin.
        apply (Hdisj h Hin). left. }
      unfold bind at 1.
      destruct (included tx) eqn:Hinc.
      * unfold list_remove. rewrite (WaiterFacts.remove_first_middle h kept rest Hnot).
        unfold ret at 1. unfold bind at 1, sleep.
        set (w2 := mkWorld _ _).
        assert (Hnd' : NoDup (kept ++ rest)).
        { apply NoDup_app in Hnd as (Hk & Hdisj & Hr).
          apply NoDup_cons in Hr as [_ Hr].
          apply NoDup_app. split; [exact Hk|]. split; [|exact Hr].
          intros x Hx Hxr. apply (Hdisj x Hx). now right. }
        specialize (IH kept w2 Hnd').
        destruct (poll_all rest (kept ++ rest) w2) as [undone w'|e w'|w'];
          [| |exact IH].
        -- destruct IH as (given & Hlen & -> & Htr).
           exists (tx :: given). simpl. rewrite Hinc.
           split; [now rewrite Hlen|]. split; [reflexivity|].
           rewrite Htr. subst w2 w1. cbn [trace].
           now rewrite <- !app_assoc.
        -- destruct IH as (h0 & err & new & He & Htr).
           exists h0, err, (new ++ [EvSleep tenth; EvQuery h (inr tx)]).
           split; [exact He|]. rewrite Htr. subst w2 w1. cbn [trace].
           now rewrite <- app_assoc.
      * unfold ret at 1. unfold bind at 1, sleep.
        set (w2 := mkWorld _ _).
        assert (Heq : kept ++ h :: rest = (kept ++ [h]) ++ rest)
          by now rewrite <- app_assoc.
        rewrite Heq in Hnd |- *.
        specialize (IH (kept ++ [h]) w2 Hnd).
        destruct (poll_all rest ((kept ++ [h]) ++ rest) w2) as [undone w'|e w'|w'];
          [| |exact IH].
        -- destruct IH as (given & Hlen & -> & Htr).
           exists (tx :: given). simpl. rewrite Hinc.
           split; [now rewrite Hlen|]. split; [now rewrite <- app_assoc|].
           rewrite Htr. subst w2 w1. cbn [trace].
           now rewrite <- !app_assoc.
        -- destruct IH as (h0 & err & new & He & Htr).
           exists h0, err, (new ++ [EvSleep tenth; EvQuery h (inr tx)]).
           split; [exact He|]. rewrite Htr. subst w2 w1. cbn [trace].
           now rewrite <- app_assoc.
Qed.

(** One evaluation of the loop condition and, if it holds, one pass. *)
Lemma wait_loop_one_pass (fuel : nat) (start timeout : float) (xs : list txhash)
    (last : nat) (w : World) :
  wait_loop (S fuel) start timeout xs last w
  = match xs with
    | [] => Ok [] w
    | _ :: _ =>
        let w1 := mkWorld (read_clock (env w)).2
                          (EvClock (read_clock (env w)).1 :: trace w) in
        if within start timeout (read_clock (env w)).1 then
          let w2 := mkWorld (read_clock (env w1)).2
                            (EvClock (read_clock (env w1)).1 :: trace w1) in
          match seconds_left start timeout (read_clock (env w1)).1 with
          | inr e => Raise e w2
          | inl r =>
              let w3 := if due last xs r
                        then mkWorld (env w2) (EvLog (length xs) r :: trace w2)
                        else w2 in
              match poll_all xs xs w3 with
              | Ok xs' w4 =>
                  wait_loop fuel start timeout xs'
                    (if due last xs r then length xs else last)
                    (mkWorld (pass_time (env w4) half) (EvSleep half :: trace w4))
              | Raise e w4 => Raise e w4
              | OutOfFuel w4 => OutOfFuel w4
              end
          end
        else Ok xs w1
    end.
Proof.
  cbn [WaiterTiming.wait_loop]. unfold bind at 1.
  destruct xs as [|x xs']; [reflexivity|].
  unfold bind at 1, monotonic at 1.
  destruct (read_clock (env w)) as [t e1] eqn:Hread. cbn [fst snd].
  unfold ret at 1. unfold within.
  destruct (t - start <? timeout)%float; [|reflexivity].
  unfold bind at 1, monotonic at 1. cbn [env].
  destruct (read_clock e1) as [t' e2] eqn:Hread'. cbn [fst snd].
  unfold bind at 1, whole, seconds_left.
  destruct (int (timeout - (t' - start))) as [r|e]; [|reflexivity].
  unfold ret at 1. unfold bind at 1, due.
  destruct (negb (Nat.eqb last (length (x :: xs'))) || (r mod 10 =? 0)).
  - unfold bind at 1, log_debug at 1, ret at 1. cbn [env trace].
    unfold bind at 1.
    destruct (poll_all (x :: xs') (x :: xs') _) as [xs'' w4|e w4|w4]; reflexivity.
  - unfold ret at 1. unfold bind at 1.
    destruct (poll_all (x :: xs') (x :: xs') _) as [xs'' w4|e w4|w4]; reflexivity.
Qed.

(** The loop, however it ends. *)
Lemma wait_loop_passes (start timeout : float) (fuel : nat) :
  forall (w : World) (pending : list txhash) (last : nat),
    NoDup pending ->
    match wait_loop fuel start timeout pending last w with
    | Ok undone w' => exists ps closing,
        trace w'
        = rev (events_of_passes start timeout pending last ps ++ closing) ++ trace w
        /\ passes_fit start timeout pending ps
        /\ undone = left_after pending ps
        /\ ((undone = [] /\ closing = [])
            \/ (undone <> [] /\ exists t, closing = [EvClock t]
                                        /\ within start timeout t = false))
    | Raise e w' =>
        (exists h err new,
            e = RpcError err /\ trace w' = EvQuery h (inl err) :: new ++ trace w)
        \/ (exists t new,
               trace w' = EvClock t :: new ++ trace w
               /\ seconds_left start timeout t = inr e)
    | OutOfFuel w' => exists ps,
        length ps = fuel
        /\ trace w' = rev (events_of_passes start timeout pending last ps) ++ trace w
        /\ passes_fit start timeout pending ps
    end.
Proof.
  induction fuel as [|fuel IH]; intros w pending last Hnd.
  - simpl. exists []. repeat split.
  - rewrite wait_loop_one_pass.
    destruct pending as [|x pending'] eqn:Hpending.
    { exists [], []. repeat split. now left. }
    rewrite <- Hpending in *.
    assert (Hne : pending <> []) by (rewrite Hpending; discriminate).
    cbn zeta.
    set (t := (read_clock (env w)).1).
    set (w1 := mkWorld _ _).
    destruct (within start timeout t) eqn:Hwithin.
    2:{ exists [], [EvClock t]. cbn [events_of_passes left_after passes_fit app rev].
        split; [reflexivity|]. split; [exact I|]. split; [reflexivity|].
        right. split; [exact Hne|]. now exists t. }
    set (t' := (read_clock (env w1)).1).
    set (w2 := mkWorld _ _).
    destruct (seconds_left start timeout t') as [r|e] eqn:Hleft.
    2:{ right. exists t', [EvClock t]. split; [reflexivity|exact Hleft]. }
    set (w3 := if due last pending r then _ else w2).
    assert (Htr3 : trace w3
                   = rev ([EvClock t; EvClock t']
                          ++ (if due last pending r
                              then [EvLog (length pending) r] else []))
                     ++ trace w).
    { subst w3 w2 w1. destruct (due last pending r); reflexivity. }
    pose proof (poll_all_answers pending [] w3 Hnd) as Hpass.
    cbn [app] in Hpass.
    destruct (poll_all pending pending w3) as [undone w4|e w4|w4];
      [| |contradiction].
    2:{ left. destruct Hpass as (h0 & err & new & He & Htr).
        exists h0, err, (new ++ rev ([EvClock t; EvClock t']
                                     ++ (if due last pending r
                                         then [EvLog (length pending) r] else []))).
        split; [exact He|]. rewrite Htr, Htr3. now rewrite <- app_assoc. }
    destruct Hpass as (given & Hlen & -> & Htr4). cbn [app].
    set (w5 := mkWorld _ _).
    assert (Htr5 : trace w5
                   = rev ([EvClock t; EvClock t']
                          ++ (if due last pending r
                              then [EvLog (length pending) r] else [])
                          ++ poll_events pending given ++ [EvSleep half])
                     ++ trace w).
    { subst w5. cbn [trace]. rewrite Htr4, Htr3.
      rewrite !rev_app_distr. cbn [rev app].
      now rewrite <- !app_assoc. }
    specialize (IH w5 (survivors pending given)
                  (if due last pending r then length pending else last)
                  (WaiterFacts.survivors_NoDup pending given Hnd)).
    set (p := mkPass t t' given).
    assert (Hfit : forall ps,
               passes_fit start timeout (survivors pending given) ps ->
               passes_fit start timeout pending (p :: ps)).
    { intros ps Hps. unfold p. cbn [passes_fit tested reading answers].
      split; [exact Hne|]. split; [exact Hwithin|].
      split; [now exists r|]. split; [exact Hlen|exact Hps]. }
    assert (Hev : forall ps tail,
               rev (events_of_passes start timeout (survivors pending given)
                      (if due last pending r then length pending else last) ps
                    ++ tail) ++ trace w5
               = rev (events_of_passes start timeout pending last (p :: ps) ++ tail)
                 ++ trace w).
    { intros ps tail. unfold p. cbn [events_of_passes tested reading answers].
      rewrite Hleft, Htr5.
      set (EP := events_of_passes start timeout (survivors pending given) _ ps).
      set (head := [EvClock t; EvClock t']
                   ++ (if due last pending r then [EvLog (length pending) r] else [])
                   ++ poll_events pending given ++ [EvSleep half]).
      replace (([EvClock t; EvClock t']
                ++ (if due last pending r then [EvLog (length pending) r] else [])
                ++ poll_events pending given ++ [EvSleep half] ++ EP) ++ tail)
        with (head ++ (EP ++ tail))
        by (unfold head; now rewrite <- !app_assoc).
      now rewrite (rev_app_distr head), <- app_assoc. }
    destruct (wait_loop fuel start timeout (survivors pending given) _ w5)
      as [undone w'|e w'|w'].
    + destruct IH as (ps & closing & Htr & Hps & Hl & Hend).
      exists (p :: ps), closing.
      split; [now rewrite Htr, Hev|]. split; [now apply Hfit|].
      split; [exact Hl|exact Hend].
    + destruct IH as [(h0 & err & new & He & Htr)|(t1 & new & Htr & Hint)].
      * left. eexists h0, err, (new ++ _). split; [exact He|].
        rewrite Htr, Htr5. now rewrite <- app_assoc.
      * right. eexists t1, (new ++ _). split; [|exact Hint].
        rewrite Htr, Htr5. now rewrite <- app_assoc.
    + destruct IH as (ps & Hn & Htr & Hps).
      exists (p :: ps). split; [simpl; now rewrite Hn|].
      split; [|now apply Hfit].
      rewrite Htr. specialize (Hev ps []). now rewrite !app_nil_r in Hev.
Qed.

(** The whole call, however it ends, in terms of its trace. *)
Lemma wait_for_txs_passes (fuel : nat) (txs : list txhash)
    (timeout : float) (w : World) :
  NoDup txs ->
  let start := (read_clock (env w)).1 in
  match wait_for_txs fuel txs timeout w with
  | Ok _ w' => exists ps,
      trace w' = rev (EvClock start :: events_of_passes start timeout txs 0 ps)
                 ++ trace w
      /\ passes_fit start timeout txs ps
      /\ left_after txs ps = []
  | Raise e w' =>
      (exists ps t,
          e = ScenarioTxError (timeout_message (left_after txs ps))
          /\ trace w' = rev (EvClock start
                             :: events_of_passes start timeout txs 0 ps
                             ++ [EvClock t]) ++ trace w
          /\ passes_fit start timeout txs ps
          /\ left_after txs ps <> []
          /\ within start timeout t = false)
      \/ (exists h err new,
             e = RpcError err /\ trace w' = EvQuery h (inl err) :: new ++ trace w)
      \/ (exists t new,
             trace w' = EvClock t :: new ++ trace w
             /\ seconds_left start timeout t = inr e)
  | OutOfFuel w' => exists ps,
      length ps = fuel
      /\ trace w' = rev (EvClock start :: events_of_passes start timeout txs 0 ps)
                    ++ trace w
      /\ passes_fit start timeout txs ps
  end.
Proof.
  intros Hnd start.
  unfold WaiterTiming.wait_for_txs, bind at 1, monotonic at 1.
  destruct (read_clock (env w)) as [t0 e0] eqn:Hread.
  cbn [fst] in start. subst start.
  set (w0 := mkWorld e0 (EvClock t0 :: trace w)).
  assert (Htr : forall evs,
             rev evs ++ trace w0 = rev (EvClock t0 :: evs) ++ trace w).
  { intros evs. cbn [rev]. now rewrite <- app_assoc. }
  pose proof (wait_loop_passes t0 timeout fuel w0 txs 0%nat Hnd) as Hloop.
  unfold bind at 1.
  destruct (wait_loop fuel t0 timeout txs 0%nat w0) as [undone w'|e w'|w'].
  - destruct Hloop as (ps & closing & Htrace & Hfit & Hundone & Hend).
    destruct Hend as [[Hnil ->]|(Hne & t & -> & Hout)].
    + rewrite Hnil. cbn [length Nat.eqb negb]. unfold ret.
      exists ps. rewrite app_nil_r in Htrace.
      split; [now rewrite Htrace, Htr|]. split; [exact Hfit|].
      now rewrite <- Hundone.
    + destruct undone as [|x undone']; [now destruct Hne|].
      cbn [length Nat.eqb negb]. unfold raise.
      left. exists ps, t.
      split; [now rewrite Hundone|].
      split; [now rewrite Htrace, Htr|]. split; [exact Hfit|].
      split; [now rewrite <- Hundone|exact Hout].
  - destruct Hloop as [(h & err & new & He & Htrace)|(t & new & Htrace & Hint)].
    + right; left. exists h, err, (new ++ [EvClock t0]).
      split; [exact He|]. rewrite Htrace. subst w0. cbn [trace].
      now rewrite <- app_assoc.
    + right; right. exists t, (new ++ [EvClock t0]).
      split; [|exact Hint]. rewrite Htrace. subst w0. cbn [trace].
      now rewrite <- app_assoc.
  - destruct Hloop as (ps & Hlen & Htrace & Hfit).
    exists ps. split; [exact Hlen|].
    split; [now rewrite Htrace, Htr|exact Hfit].
Qed.

(** *** The events are the surroundings' *)

Lemma run_of_refl (w : World) : run_of w [] w.
Proof. split; reflexivity. Qed.

Lemma replays_app (a b : list event) :
  forall e e1 e2, replays e a e1 -> replays e1 b e2 -> replays e (a ++ b) e2.
Proof.
  induction a as [|ev a IH]; intros e e1 e2 Ha Hb.
  - cbn in Ha. subst e1. exact Hb.
  - destruct ev; cbn [app WaiterTiming.replays] in *.
    + destruct Ha as [Ht Ha]. split; [exact Ht|]. exact (IH _ _ _ Ha Hb).
    + exact (IH _ _ _ Ha Hb).
    + destruct Ha as [Ht Ha]. split; [exact Ht|]. exact (IH _ _ _ Ha Hb).
    + exact (IH _ _ _ Ha Hb).
Qed.

Lemma run_of_trans (w w1 w2 : World) (a b : list event) :
  run_of w a w1 -> run_of w1 b w2 -> run_of w (a ++ b) w2.
Proof.
  intros [Ha1 Ha2] [Hb1 Hb2]. split.
  - rewrite Hb1, Ha1, rev_app_distr. now rewrite <- app_assoc.
  - exact (replays_app a b _ _ _ Ha2 Hb2).
Qed.

Lemma run_bind {A B : Type} (m : M Env A) (k : A -> M Env B) (w : World) :
  (exists evs, run_of w evs (final (m w))) ->
  (forall a w1, m w = Ok a w1 -> exists evs, run_of w1 evs (final (k a w1))) ->
  exists evs, run_of w evs (final (bind Env m k w)).
Proof.
  intros (a & Ha) Hk. unfold bind.
  destruct (m w) as [x w1|e w1|w1]; [|now exists a|now exists a].
  destruct (Hk x w1 eq_refl) as (b & Hb).
  exists (a ++ b). exact (run_of_trans _ _ _ _ _ Ha Hb).
Qed.

Lemma run_ret {A : Type} (a : A) (w : World) :
  exists evs, run_of w evs (final (ret Env a w)).
Proof. exists []. apply run_of_refl. Qed.

Lemma run_raise {A : Type} (e : exn) (w : World) :
  exists evs, run_of w evs (final (raise Env (A := A) e w)).
Proof. exists []. apply run_of_refl. Qed.

Lemma run_monotonic (w : World) :
  exists evs, run_of w evs (final (monotonic Env read_clock w)).
Proof.
  unfold monotonic. destruct (read_clock (env w)) as [t e] eqn:Hread.
  exists [EvClock t]. split; [reflexivity|].
  cbn [WaiterTiming.replays final env]. now rewrite Hread.
Qed.

Lemma run_sleep (d : float) (w : World) :
  exists evs, run_of w evs (final (sleep Env pass_time d w)).
Proof. exists [EvSleep d]. split; reflexivity. Qed.

Lemma run_log_debug (n : nat) (r : Z) (w : World) :
  exists evs, run_of w evs (final (log_debug Env n r w)).
Proof. exists [EvLog n r]. split; reflexivity. Qed.

Lemma run_get_transaction (h : txhash) (w : World) :
  exists evs, run_of w evs (final (get_transaction Env getTransaction h w)).
Proof.
  unfold get_transaction.
  destruct (getTransaction (env w) h) as [answer e] eqn:Hask.
  exists [EvQuery h answer].
  destruct answer; (split; [reflexivity|]);
    cbn [WaiterTiming.replays final env]; now rewrite Hask.
Qed.

Lemma run_poll_all (snapshot : list txhash) :
  forall (txhashes : list txhash) (w : World),
    exists evs, run_of w evs (final (poll_all snapshot txhashes w)).
Proof.
  induction snapshot as [|h rest IH]; intros txhashes w;
    cbn [WaiterTiming.poll_all].
  - apply run_ret.
  - apply run_bind; [apply run_get_transaction|]. intros tx w1 _.
    apply run_bind.
    { destruct (included tx); [|apply run_ret].
      unfold list_remove. destruct (remove_first h txhashes);
        [apply run_ret|apply run_raise]. }
    intros xs w2 _. apply run_bind; [apply run_sleep|]. intros _ w3 _.
    apply IH.
Qed.

Lemma run_wait_loop (start timeout : float) (fuel : nat) :
  forall (txhashes : list txhash) (outstanding : nat) (w : World),
    exists evs,
      run_of w evs (final (wait_loop fuel start timeout txhashes outstanding w)).
Proof.
  induction fuel as [|fuel IH]; intros txhashes outstanding w;
    cbn [WaiterTiming.wait_loop].
  - exists []. apply run_of_refl.
  - apply run_bind.
    { destruct txhashes as [|x xs]; [apply run_ret|].
      apply run_bind; [apply run_monotonic|]. intros t w1 _. apply run_ret. }
    intros go w1 _. destruct go; [|apply run_ret].
    apply run_bind; [apply run_monotonic|]. intros t w2 _.
    apply run_bind.
    { unfold whole. destruct (int _); [apply run_ret|apply run_raise]. }
    intros r w3 _. apply run_bind.
    { destruct (_ || _); [|apply run_ret].
      apply run_bind; [apply run_log_debug|]. intros _ w4 _. apply run_ret. }
    intros n w4 _. apply run_bind; [apply run_poll_all|]. intros xs w5 _.
    apply run_bind; [apply run_sleep|]. intros _ w6 _. apply IH.
Qed.

Lemma run_wait_for_txs (fuel : nat) (txs : list txhash) (timeout : float)
    (w : World) :
  exists evs, run_of w evs (final (wait_for_txs fuel txs timeout w)).
Proof.
  unfold WaiterTiming.wait_for_txs.
  apply run_bind; [apply run_monotonic|]. intros start w1 _.
  apply run_bind; [apply run_wait_loop|]. intros xs w2 _.
  destruct (negb _); [apply run_raise|apply run_ret].
Qed.

(** An event list is known by the trace it leaves. *)
Lemma trace_determines (older a b : list event) :
  rev a ++ older = rev b ++ older -> a = b.
Proof.
  intros H. apply app_inv_tail in H. apply (f_equal (@rev event)) in H.
  now rewrite !rev_involutive in H.
Qed.

(** C7, as the code has it. The events of a call of [wait_for_txs] on
    identifiers that are all different are what the surroundings gave, in
    this order: the reading of the clock at the start, and then passes, as
    long as something is outstanding and the reading that is tested is
    within the timeout. A pass is: the reading that is tested, the reading
    the remaining time is computed from, a status line if the count of
    outstanding identifiers differs from the one last logged or the whole
    seconds left are a multiple of ten, one poll of each outstanding
    identifier with a sleep of a tenth of a second after each, and a sleep
    of half a second. So the sleeps between two consecutive polls are one
    of a tenth of a second, and one of half a second more across the end of
    a pass. The call returns when a pass leaves nothing outstanding; it
    raises the timeout error, naming what is left, when the reading tested
    is outside the timeout; it raises what the client raises, right after
    the query; it raises what [int] raises on the remaining time; or the
    fuel of the model is used up after that many passes. *)
Theorem wait_for_txs_works_in_passes (fuel : nat) (txs : list txhash)
    (timeout : float) (w : World) :
  NoDup txs ->
  let start := (read_clock (env w)).1 in
  let r := wait_for_txs fuel txs timeout w in
  exists events,
    run_of w events (final r)
    /\ match r with
       | Ok _ _ => exists ps,
           events = EvClock start :: events_of_passes start timeout txs 0 ps
           /\ passes_fit start timeout txs ps
           /\ left_after txs ps = []
           /\ Forall short_rest (sleeps_between_polls None events)
       | Raise e _ =>
           (exists ps t,
               e = ScenarioTxError (timeout_message (left_after txs ps))
               /\ events = EvClock start
                           :: events_of_passes start timeout txs 0 ps
                           ++ [EvClock t]
               /\ passes_fit start timeout txs ps
               /\ left_after txs ps <> []
               /\ within start timeout t = false
               /\ Forall short_rest (sleeps_between_polls None events))
           \/ (exists h err older,
                  e = RpcError err /\ events = older ++ [EvQuery h (inl err)])
           \/ (exists t older,
                  events = older ++ [EvClock t]
                  /\ seconds_left start timeout t = inr e)
       | OutOfFuel _ => exists ps,
           length ps = fuel
           /\ events = EvClock start :: events_of_passes start timeout txs 0 ps
           /\ passes_fit start timeout txs ps
           /\ Forall short_rest (sleeps_between_polls None events)
       end.
Proof.
  intros Hnd start r.
  destruct (run_wait_for_txs fuel txs timeout w) as (events & Hrun).
  fold r in Hrun. exists events. split; [exact Hrun|].
  destruct Hrun as [Htrace _].
  assert (Hrest : forall ps closing,
             passes_fit start timeout txs ps ->
             (forall s, sleeps_between_polls s closing = []) ->
             Forall short_rest
               (sleeps_between_polls None
                  (EvClock start
                   :: events_of_passes start timeout txs 0 ps ++ closing))).
  { intros ps closing Hfit Hc. cbn [sleeps_between_polls].
    now apply passes_rest_between_polls. }
  pose proof (wait_for_txs_passes fuel txs timeout w Hnd) as Hpasses.
  cbn zeta in Hpasses. fold start r in Hpasses.
  destruct r as [u w'|e w'|w']; cbn [final] in Htrace.
  - destruct Hpasses as (ps & Htr & Hfit & Hleft).
    exists ps.
    assert (events = EvClock start :: events_of_passes start timeout txs 0 ps)
      as -> by (apply (trace_determines (trace w)); congruence).
    split; [reflexivity|]. split; [exact Hfit|]. split; [exact Hleft|].
    specialize (Hrest ps [] Hfit (fun _ => eq_refl)).
    now rewrite app_nil_r in Hrest.
  - destruct Hpasses as [(ps & t & He & Htr & Hfit & Hleft & Hout)
                        |[(h & err & new & He & Htr)|(t & new & Htr & Hint)]].
    + left. exists ps, t.
      assert (events = EvClock start
                       :: events_of_passes start timeout txs 0 ps ++ [EvClock t])
        as -> by (apply (trace_determines (trace w)); congruence).
      split; [exact He|]. split; [reflexivity|]. split; [exact Hfit|].
      split; [exact Hleft|]. split; [exact Hout|].
      exact (Hrest ps [EvClock t] Hfit (fun _ => eq_refl)).
    + right; left. exists h, err, (rev new). split; [exact He|].
      apply (trace_determines (trace w)).
      rewrite <- Htrace, Htr, rev_app_distr, rev_involutive. reflexivity.
    + right; right. exists t, (rev new). split; [|exact Hint].
      apply (trace_determines (trace w)).
      rewrite <- Htrace, Htr, rev_app_distr, rev_involutive. reflexivity.
  - destruct Hpasses as (ps & Hlen & Htr & Hfit).
    exists ps. split; [exact Hlen|].
    assert (events = EvClock start :: events_of_passes start timeout txs 0 ps)
      as -> by (apply (trace_determines (trace w)); congruence).
    split; [reflexivity|]. split; [exact Hfit|].
    specialize (Hrest ps [] Hfit (fun _ => eq_refl)).
    now rewrite app_nil_r in Hrest.
Qed.

End Facts.

(** C7, as stated, fails on both counts. With sixteen identifiers that are
    never included and a timeout of 30 s, on a clock that advances by what
    the waiter sleeps, a pass takes 2.1 s and none of the whole seconds
    left at the start of a pass is a multiple of ten before the last one,
    which has 0 left: the status line of the first pass is followed by one
    29.4 s later and by none in between. And with one identifier and a
    timeout of 1 s, the two polls are 0.6 s apart, not 0.1 s: the waiter
    sleeps a tenth of a second and then half a second between them. *)
Lemma wait_for_txs_status_lines_far_apart :
  (exists w',
      wait_on_ticking_clock 20 sixteen 30
      = Raise (ScenarioTxError (timeout_message sixteen)) w'
      /\ status_lines 0 (rev (trace w'))
         = [(0%float, 16%nat, 30); (29.400000000000109%float, 16%nat, 0)])
  /\ (exists w',
         wait_on_ticking_clock 5 ["tx1"] 1
         = Raise (ScenarioTxError "Timeout waiting for txhashes: tx1") w'
         /\ rev (trace w')
            = [EvClock 0; EvClock 0; EvClock 0; EvLog 1 1;
               EvQuery "tx1" (inr (TxFound None)); EvSleep tenth; EvSleep half;
               EvClock 0.59999999999999998; EvClock 0.59999999999999998;
               EvLog 1 0;
               EvQuery "tx1" (inr (TxFound None)); EvSleep tenth; EvSleep half;
               EvClock 1.2]
         /\ sleeps_between_polls None (rev (trace w')) = [[tenth; half]]).
Proof.
  split.
  - eexists. split; vm_compute; reflexivity.
  - eexists. split; [vm_compute; reflexivity|]. split; vm_compute; reflexivity.
Qed.

(** A run that satisfies the hypothesis of C7: one identifier that is never
    included, a timeout of 2.8 s, on the clock that advances by what the
    waiter sleeps. The passes begin at 0, 0.6, 1.2, 1.8 and 2.4 s; the
    status lines are the one of the first pass, with 2 whole seconds left,
    and those of the last two, with 0 whole seconds left: at 1.8 s the
    remaining time computed in binary64 is just below one second. *)
Lemma wait_for_txs_works_in_passes_witness :
  NoDup ["tx1"]
  /\ exists w',
       wait_on_ticking_clock 10 ["tx1"] 2.8
       = Raise (ScenarioTxError "Timeout waiting for txhashes: tx1") w'
       /\ status_lines 0 (rev (trace w'))
          = [(0%float, 1%nat, 2); (1.8%float, 1%nat, 0);
             (2.4000000000000004%float, 1%nat, 0)]
       /\ exists ps t,
            let events :=
              EvClock 0 :: events_of_passes 0 2.8 ["tx1"] 0 ps ++ [EvClock t] in
            run_of float ticking_clock ticking_sleep nothing_included
              (mkWorld 0%float []) events w'
            /\ passes_fit 0 2.8 ["tx1"] ps
            /\ left_after ["tx1"] ps = ["tx1"]
            /\ within 0 2.8 t = false
            /\ Forall short_rest (sleeps_between_polls None events).
Proof.
  assert (Hnd : NoDup ["tx1"]) by (apply NoDup_singleton).
  split; [exact Hnd|].
  pose proof (wait_for_txs_works_in_passes float ticking_clock ticking_sleep
                nothing_included 10 ["tx1"] 2.8%float (mkWorld 0%float []) Hnd)
    as H.
  cbn zeta in H. unfold wait_on_ticking_clock.
  remember (wait_for_txs float ticking_clock ticking_sleep nothing_included 10
              ["tx1"] 2.8%float (mkWorld 0%float [])) as r eqn:Hr in *.
  vm_compute in Hr. subst r.
  destruct H as (events & Hrun & Hcase). cbn [final] in Hrun.
  eexists. split; [reflexivity|]. split; [vm_compute; reflexivity|].
  destruct Hcase as [(ps & t & He & -> & Hfit & Hleft & Hout & Hrest)
                    |[(h & err & older & He & _)|(t & older & _ & Hint)]].
  - exists ps, t. cbn zeta. cbn [env fst ticking_clock] in *.
    split; [exact Hrun|]. split; [exact Hfit|].
    split; [|split; [exact Hout|exact Hrest]].
    pose proof (left_after_sublist ps ["tx1"]) as Hsub.
    destruct (left_after ["tx1"] ps) as [|x l]; [now destruct Hleft|].
    apply sublist_cons_l in Hsub as (k1 & k2 & Hk & Hl).
    destruct k1 as [|y [|z k1]]; try discriminate Hk.
    injection Hk as <- <-. apply sublist_nil_r in Hl. now subst l.
  - discriminate He.
  - apply int_raises in Hint as [Hint|Hint]; discriminate Hint.
Defined.

End WaiterTimingFacts.
